(** * smart-env: the value parser and the schema validator

    A shallow embedding of [src/core/parser.ts], [src/core/validator.ts]
    and the entry functions of [src/index.ts] (with the declarations of
    [types.ts]) and the properties of the specification proved about it.

    Conventions of the embedding.
    - A JavaScript string is a [string]: one [ascii] per code unit, so the
      strings of the model are those over U+0000..U+00FF.
    - A JavaScript number is an IEEE 754 binary64 value, a [spec_float].
    - [undefined] is [None] for a property that holds a string, a number or
      a flag, and [JUndefined] for a property of type [any].
    - The [default] of a descriptor and what [JSON.parse] returns are data
      ([JsValue]); a read of the environment can also find a function or
      an object of the prototype chain ([Foreign]), which the code sees
      through its [length] and its conversion to a string.
    - An object is the list of its own enumerable properties in creation
      order, on top of [Object.prototype]: reading a name that is not an
      own property finds what the object inherits ([env_read]), and
      assigning to [__proto__] does not create a property ([assign]).
    - A [throw] is an explicit outcome, [Throw], of the completion monad;
      [try]/[catch] is [try_catch].
    - The builtins whose algorithms live in the engine ([Number], number to
      string conversion, [new URL], [JSON.parse]) are the fields of a
      [Host], and what every object inherits is given by a [Realm]; the
      theorems hold for every host and every realm. *)

From Stdlib Require Import String Ascii List ZArith NArith Bool Lia.
From Stdlib Require Import DecimalString.
From Stdlib Require Import Permutation Sorted.
From Stdlib Require Import Floats.SpecFloat.
Import ListNotations.

Open Scope list_scope.
Open Scope string_scope.

(** ** Strings *)

Module JsString.

Definition code (c : ascii) : N := N_of_ascii c.

Definition in_range (lo hi : N) (c : ascii) : bool :=
  (N.leb lo (code c) && N.leb (code c) hi)%bool.

(** [String.prototype.toLowerCase] on one code unit: A-Z, and the
    upper-case letters of the Latin-1 supplement (U+00C0..U+00DE without
    the multiplication sign U+00D7), move 32 places up. *)
Definition lower_unit (c : ascii) : ascii :=
  if (in_range 65 90 c
      || (in_range 192 222 c && negb (N.eqb (code c) 215)))%bool
  then ascii_of_N (code c + 32)
  else c.

Fixpoint toLowerCase (s : string) : string :=
  match s with
  | EmptyString => EmptyString
  | String c r => String (lower_unit c) (toLowerCase r)
  end.

(** WhiteSpace and LineTerminator code units: TAB, LF, VT, FF, CR, SP
    and NBSP. *)
Definition is_space (c : ascii) : bool :=
  (in_range 9 13 c || N.eqb (code c) 32 || N.eqb (code c) 160)%bool.

Fixpoint trimStart (s : string) : string :=
  match s with
  | EmptyString => EmptyString
  | String c r => if is_space c then trimStart r else s
  end.

Fixpoint trimEnd (s : string) : string :=
  match s with
  | EmptyString => EmptyString
  | String c r =>
      match trimEnd r with
      | EmptyString => if is_space c then EmptyString else String c EmptyString
      | r' => String c r'
      end
  end.

Definition trim (s : string) : string := trimEnd (trimStart s).

(** [s.slice(0, -1)]: all code units but the last. *)
Definition slice_0_m1 (s : string) : string :=
  substring 0 (String.length s - 1) s.

(** [xs.includes(x)] on an array of strings. *)
Definition includes (xs : list string) (x : string) : bool :=
  existsb (String.eqb x) xs.

(** [xs.join(sep)]. *)
Definition join (xs : list string) (sep : string) : string :=
  String.concat sep xs.

(** [s.startsWith(p)], used to state what a message begins with. *)
Definition startsWith (s p : string) : bool := String.prefix p s.

Definition dquote : string := String "034"%char EmptyString.
Definition newline : string := String "010"%char EmptyString.

End JsString.

Import JsString.

(** ** Numbers *)

Definition number : Type := spec_float.

Definition NaN : number := S754_nan.

Definition number_of_Z (z : Z) : number := binary_normalize 53 1024 z 0 false.

(** The number of a length or an index. *)
Definition number_of_nat (n : nat) : number := number_of_Z (Z.of_nat n).

(** [isNaN(x)]. *)
Definition isNaN (x : number) : bool :=
  match x with
  | S754_nan => true
  | _ => false
  end.

(** [Number.isInteger(x)]: [x] is finite and has no fractional part. *)
Definition Number_isInteger (x : number) : bool :=
  match x with
  | S754_zero _ => true
  | S754_finite _ m e =>
      (Z.leb 0 e || Z.eqb (Z.modulo (Z.pos m) (Z.pow 2 (- e))) 0)%bool
  | S754_infinity _ | S754_nan => false
  end.

(** [x < y], [x > y] and [x === y] on numbers; each is [false] when an
    operand is NaN. *)
Definition num_lt (x y : number) : bool := SFltb x y.
Definition num_gt (x y : number) : bool := SFltb y x.
Definition num_eq (x y : number) : bool := SFeqb x y.

(** ** Values of type [any] *)

#[warnings="-register-all"]
Inductive JsValue : Type :=
| JUndefined
| JNull
| JBool (b : bool)
| JNum (n : number)
| JStr (s : string)
| JArr (items : list JsValue)
| JObj (props : list (string * JsValue)).

(** A function or an object that is not data, such as the methods that
    every object inherits.  The parser can observe two things of it: its
    [length] property (the arity of a function, [undefined] otherwise) and
    its conversion to a string; it has no [toLowerCase] method. *)
Record Foreign : Type := mkForeign {
  foreign_length : option number;
  foreign_text : string
}.

(** What a variable of type [any] can hold in [validator.ts]: data, or
    something that a read of the environment found on the prototype
    chain. *)
Inductive AnyValue : Type :=
| Data (v : JsValue)
| Inherited (f : Foreign).

(** [v !== undefined]. *)
Definition is_defined (v : JsValue) : bool :=
  match v with
  | JUndefined => false
  | _ => true
  end.

(** ** Completions: a result or a thrown exception *)

Record JsError : Type := mkJsError {
  error_name : string;
  error_message : string
}.

(** [new Error(msg)]. *)
Definition new_Error (msg : string) : JsError := mkJsError "Error" msg.

Inductive Completion (A : Type) : Type :=
| Normal (a : A)
| Throw (e : JsError).

Arguments Normal {A} a.
Arguments Throw {A} e.

Definition ret {A : Type} (a : A) : Completion A := Normal a.

Definition bind {A B : Type} (c : Completion A) (k : A -> Completion B)
  : Completion B :=
  match c with
  | Normal a => k a
  | Throw e => Throw e
  end.

(** [try { body } catch (error) { handler }]. *)
Definition try_catch {A : Type} (body : Completion A)
    (handler : JsError -> Completion A) : Completion A :=
  match body with
  | Normal a => Normal a
  | Throw e => handler e
  end.

Declare Scope completion_scope.
Delimit Scope completion_scope with completion.
Notation "x <- c ;; k" := (bind c (fun x => k))
  (at level 100, c at next level, right associativity) : completion_scope.
Open Scope completion_scope.

Definition returns {A : Type} (c : Completion A) : Prop :=
  exists a, c = Normal a.

Definition throws {A : Type} (c : Completion A) : Prop :=
  exists e, c = Throw e.

(** ** Objects

    The own enumerable string-keyed properties of an object, in the order
    they were created.  Property names are pairwise distinct ([obj_wf]). *)

Definition JsObject (V : Type) : Type := list (string * V).

Section Objects.

Context {V : Type}.

Definition obj_wf (o : JsObject V) : Prop := NoDup (map fst o).

(** The own property named [k], if there is one. *)
Fixpoint get_own (o : JsObject V) (k : string) : option V :=
  match o with
  | [] => None
  | (k', v) :: rest => if String.eqb k k' then Some v else get_own rest k
  end.

(** [o[k] = v]: an existing property keeps its place, a new one is
    created last. *)
Fixpoint set_own (o : JsObject V) (k : string) (v : V) : JsObject V :=
  match o with
  | [] => [(k, v)]
  | (k', v') :: rest =>
      if String.eqb k k' then (k, v) :: rest
      else (k', v') :: set_own rest k v
  end.

Definition digit_value (c : ascii) : option N :=
  if in_range 48 57 c then Some (code c - 48)%N else None.

Fixpoint decimal_value (s : string) (acc : N) : option N :=
  match s with
  | EmptyString => Some acc
  | String c r =>
      match digit_value c with
      | Some d => decimal_value r (10 * acc + d)%N
      | None => None
      end
  end.

(** A property name is an array index when it is the canonical decimal
    form of an integer in 0 .. 2^32 - 2. *)
Definition array_index (k : string) : option N :=
  match k with
  | EmptyString => None
  | String c r =>
      if (N.eqb (code c) 48 && negb (String.eqb r EmptyString))%bool
      then None
      else match decimal_value k 0 with
           | Some n => if N.ltb n (2 ^ 32 - 1) then Some n else None
           | None => None
           end
  end.

Definition is_named (kv : string * V) : bool :=
  match array_index (fst kv) with
  | Some _ => false
  | None => true
  end.

Fixpoint indexed (o : JsObject V) : list (N * (string * V)) :=
  match o with
  | [] => []
  | kv :: rest =>
      match array_index (fst kv) with
      | Some n => (n, kv) :: indexed rest
      | None => indexed rest
      end
  end.

Fixpoint insert_indexed (x : N * (string * V))
    (l : list (N * (string * V))) : list (N * (string * V)) :=
  match l with
  | [] => [x]
  | y :: rest =>
      if N.leb (fst x) (fst y) then x :: l
      else y :: insert_indexed x rest
  end.

Definition sort_indexed (l : list (N * (string * V)))
  : list (N * (string * V)) :=
  fold_right insert_indexed [] l.

(** [Object.entries(o)]: the properties whose name is an array index
    first, in ascending numeric order, then the others in creation
    order. *)
Definition Object_entries (o : JsObject V) : list (string * V) :=
  map snd (sort_indexed (indexed o)) ++ filter is_named o.

(** [Object.keys(o)]. *)
Definition Object_keys (o : JsObject V) : list string :=
  map fst (Object_entries o).

End Objects.


(** ** The host

    The builtins the parser calls.  [new_URL] and [JSON_parse] throw on
    malformed input. *)

Record URL : Type := mkURL {
  protocol : string
}.

Class Host : Type := {
  Number : string -> number;
  String_of_number : number -> string;
  new_URL : string -> Completion URL;
  JSON_parse : string -> Completion JsValue
}.

(** A regular expression object: what [test] answers and how the pattern
    prints in a template literal.  The answer of [test] is a function of
    the string alone, as it is for a pattern without the [g] and [y]
    flags. *)
Record RegExp : Type := mkRegExp {
  test : string -> bool;
  RegExp_toString : string
}.

(** ** The realm

    An environment and the object [parseEnv] builds are ordinary objects:
    a name that is not an own property is looked up on [Object.prototype].
    There it finds the builtin methods ([constructor], [toString],
    [hasOwnProperty], ...), which are functions, and the accessor
    [__proto__], which reads as [Object.prototype] itself and, on
    assignment, sets the prototype instead of creating a property.
    [Object_prototype] lists the properties of [Object.prototype] in the
    realm, with their values: the builtin methods, and whatever else the
    program has put there. *)

(** What [env[key]] evaluates to. *)
Inductive RawValue : Type :=
| RawUndefined
| RawString (s : string)
| RawForeign (f : Foreign).

Class Realm : Type := {
  Object_prototype : JsObject RawValue
}.

(** [Object.prototype] as a value: it has no [length], and prints as
    "[object Object]". *)
Definition prototype_object : Foreign :=
  {| foreign_length := None; foreign_text := "[object Object]" |}.

(** A raw value of the declared type [string | undefined]. *)
Definition raw_of (rawValue : option string) : RawValue :=
  match rawValue with
  | Some s => RawString s
  | None => RawUndefined
  end.

(** [env[key]]: the own property if there is one (also when it holds
    [undefined]), otherwise what the prototype chain gives. *)
Definition env_read {realm : Realm} (env : JsObject (option string))
    (key : string) : RawValue :=
  match get_own env key with
  | Some rawValue => raw_of rawValue
  | None =>
      if String.eqb key "__proto__" then RawForeign prototype_object
      else match get_own Object_prototype key with
           | Some inherited => inherited
           | None => RawUndefined
           end
  end.

(** ** The data model of [types.ts] *)

(** [EnvVarConfig]: the properties the parser reads from a descriptor.
    [type] is the tag the parser switches on; a property that the variant
    of the tag does not declare is never read. *)
Record EnvVarConfig : Type := mkConfig {
  type : string;
  required : option bool;
  default : JsValue;
  description : option string;
  minLength : option number;
  maxLength : option number;
  pattern : option RegExp;
  min : option number;
  max : option number;
  integer : option bool;
  protocols : option (list string);
  values : list string
}.

Definition EnvSchema : Type := JsObject EnvVarConfig.

Record ValidationError : Type := mkValidationError {
  variable : string;
  message : string;
  expected : option string;
  received : option string
}.

Record ValidationResult : Type := mkValidationResult {
  valid : bool;
  errors : list ValidationError;
  warnings : list string
}.

(** What [parseValue] returns: [{ value: any; error?: ValidationError }]. *)
Record ParseResult : Type := mkParseResult {
  value : JsValue;
  error : option ValidationError
}.

(** ** [src/core/parser.ts] *)

Section Parser.

Context {host : Host}.

(** [o !== undefined && p(o)], and [o && p(o)] for an object [o]. *)
Definition defined_and {A : Type} (o : option A) (p : A -> bool) : bool :=
  match o with
  | Some a => p a
  | None => false
  end.

(** A flag read as a condition. *)
Definition truthy (o : option bool) : bool :=
  match o with
  | Some true => true
  | _ => false
  end.

(** [flag !== false]. *)
Definition not_false (o : option bool) : bool :=
  match o with
  | Some false => false
  | _ => true
  end.

(** A number property inside a template literal. *)
Definition template_number (o : option number) : string :=
  match o with
  | Some n => String_of_number n
  | None => "undefined"
  end.

(** A pattern property inside a template literal. *)
Definition template_RegExp (o : option RegExp) : string :=
  match o with
  | Some re => RegExp_toString re
  | None => "undefined"
  end.

Definition parseString (value : string) (config : EnvVarConfig)
    (variableName : string) : Completion ParseResult :=
  let length := number_of_nat (String.length value) in
  if defined_and (minLength config) (num_lt length) then
    ret {| value := JStr value;
           error := Some {|
             variable := variableName;
             message := "String is too short (minimum: "
                          ++ template_number (minLength config)
                          ++ " characters)";
             expected := Some ("string with at least "
                          ++ template_number (minLength config)
                          ++ " characters");
             received := Some ("string with "
                          ++ String_of_number length ++ " characters") |} |}
  else if defined_and (maxLength config) (num_gt length) then
    ret {| value := JStr value;
           error := Some {|
             variable := variableName;
             message := "String is too long (maximum: "
                          ++ template_number (maxLength config)
                          ++ " characters)";
             expected := Some ("string with at most "
                          ++ template_number (maxLength config)
                          ++ " characters");
             received := Some ("string with "
                          ++ String_of_number length ++ " characters") |} |}
  else if defined_and (pattern config) (fun re => negb (test re value)) then
    ret {| value := JStr value;
           error := Some {|
             variable := variableName;
             message := "String does not match required pattern: "
                          ++ template_RegExp (pattern config);
             expected := Some ("string matching "
                          ++ template_RegExp (pattern config));
             received := Some value |} |}
  else
    ret {| value := JStr value; error := None |}.

Definition parseNumber (value : string) (config : EnvVarConfig)
    (variableName : string) : Completion ParseResult :=
  let num := Number value in
  if isNaN num then
    ret {| value := JNum num;
           error := Some {|
             variable := variableName;
             message := "Invalid number format";
             expected := Some "number";
             received := Some value |} |}
  else if (truthy (integer config) && negb (Number_isInteger num))%bool then
    ret {| value := JNum num;
           error := Some {|
             variable := variableName;
             message := "Value must be an integer";
             expected := Some "integer";
             received := Some value |} |}
  else if defined_and (min config) (num_lt num) then
    ret {| value := JNum num;
           error := Some {|
             variable := variableName;
             message := "Number is below minimum value ("
                          ++ template_number (min config) ++ ")";
             expected := Some ("number >= " ++ template_number (min config));
             received := Some (String_of_number num) |} |}
  else if defined_and (max config) (num_gt num) then
    ret {| value := JNum num;
           error := Some {|
             variable := variableName;
             message := "Number exceeds maximum value ("
                          ++ template_number (max config) ++ ")";
             expected := Some ("number <= " ++ template_number (max config));
             received := Some (String_of_number num) |} |}
  else
    ret {| value := JNum num; error := None |}.

Definition parseBoolean (value : string) (_config : EnvVarConfig)
    (variableName : string) : Completion ParseResult :=
  let lowerValue := trim (toLowerCase value) in
  if (String.eqb lowerValue "true" || String.eqb lowerValue "1"
      || String.eqb lowerValue "yes")%bool then
    ret {| value := JBool true; error := None |}
  else if (String.eqb lowerValue "false" || String.eqb lowerValue "0"
           || String.eqb lowerValue "no")%bool then
    ret {| value := JBool false; error := None |}
  else
    ret {| value := JBool false;
           error := Some {|
             variable := variableName;
             message := "Invalid boolean value";
             expected := Some "true, false, 1, 0, yes, or no";
             received := Some value |} |}.

Definition parseUrl (value : string) (config : EnvVarConfig)
    (variableName : string) : Completion ParseResult :=
  try_catch
    (url <- new_URL value ;;
     match protocols config with
     | Some allowed =>
         if negb (includes allowed (slice_0_m1 (protocol url))) then
           ret {| value := JStr value;
                  error := Some {|
                    variable := variableName;
                    message := "Invalid URL protocol";
                    expected := Some ("URL with protocol: "
                                        ++ join allowed ", ");
                    received := Some (slice_0_m1 (protocol url)) |} |}
         else
           ret {| value := JStr value; error := None |}
     | None =>
         ret {| value := JStr value; error := None |}
     end)
    (fun _error =>
       ret {| value := JStr value;
              error := Some {|
                variable := variableName;
                message := "Invalid URL format";
                expected := Some "valid URL";
                received := Some value |} |}).

Definition parseJson (value : string) (_config : EnvVarConfig)
    (variableName : string) : Completion ParseResult :=
  try_catch
    (parsed <- JSON_parse value ;;
     ret {| value := parsed; error := None |})
    (fun _error =>
       ret {| value := JUndefined;
              error := Some {|
                variable := variableName;
                message := "Invalid JSON format";
                expected := Some "valid JSON string";
                received := Some value |} |}).

Definition parseEnum (value : string) (config : EnvVarConfig)
    (variableName : string) : Completion ParseResult :=
  if negb (includes (values config) value) then
    ret {| value := JStr value;
           error := Some {|
             variable := variableName;
             message := "Value must be one of: " ++ join (values config) ", ";
             expected := Some (join (values config) ", ");
             received := Some value |} |}
  else
    ret {| value := JStr value; error := None |}.

Definition parseValue (rawValue : option string) (config : EnvVarConfig)
    (variableName : string) : Completion ParseResult :=
  match rawValue with
  | None | Some EmptyString =>
      (* rawValue === undefined || rawValue === '' *)
      if is_defined (default config) then
        ret {| value := default config; error := None |}
      else if not_false (required config) then
        ret {| value := JUndefined;
               error := Some {|
                 variable := variableName;
                 message := "Required environment variable is missing";
                 expected := Some (type config ++ " value");
                 received := Some "undefined" |} |}
      else
        ret {| value := JUndefined; error := None |}
  | Some value =>
      if String.eqb (type config) "string" then
        parseString value config variableName
      else if String.eqb (type config) "number" then
        parseNumber value config variableName
      else if String.eqb (type config) "boolean" then
        parseBoolean value config variableName
      else if String.eqb (type config) "url" then
        parseUrl value config variableName
      else if String.eqb (type config) "json" then
        parseJson value config variableName
      else if String.eqb (type config) "enum" then
        parseEnum value config variableName
      else
        ret {| value := JUndefined;
               error := Some {|
                 variable := variableName;
                 message := "Unknown type: " ++ type config;
                 expected := None;
                 received := Some value |} |}
  end.

End Parser.

(** ** [src/core/parser.ts] on a value that is not a string

    The environment is declared as [Record<string, string | undefined>],
    but [env[key]] also finds inherited properties, so [parseValue] can be
    handed a function or an object.  What the code of [parser.ts] does
    with such a value [f]: [f.length] is its [length] property, a
    conversion to string or to number goes through its text, and
    [f.toLowerCase] is [undefined].  Where the code stores the value
    itself in [received], the model keeps its text, which is what a
    template literal prints. *)

(** The result of [parseValue], [{ value: any; error?: ValidationError }],
    with a value that need not be data. *)
Record AnyResult : Type := mkAnyResult {
  any_value : AnyValue;
  any_error : option ValidationError
}.

(** A result of the parser on a string, at that type. *)
Definition as_any (r : ParseResult) : AnyResult :=
  {| any_value := Data (value r); any_error := error r |}.

Section ParserForeign.

Context {host : Host}.

(** [value.length] as a number: [undefined] converts to NaN. *)
Definition foreign_length_number (f : Foreign) : number :=
  match foreign_length f with
  | Some n => n
  | None => NaN
  end.

Definition parseString_foreign (value : Foreign) (config : EnvVarConfig)
    (variableName : string) : Completion AnyResult :=
  let length := foreign_length_number value in
  if defined_and (minLength config) (num_lt length) then
    ret {| any_value := Inherited value;
           any_error := Some {|
             variable := variableName;
             message := "String is too short (minimum: "
                          ++ template_number (minLength config)
                          ++ " characters)";
             expected := Some ("string with at least "
                          ++ template_number (minLength config)
                          ++ " characters");
             received := Some ("string with "
                          ++ template_number (foreign_length value)
                          ++ " characters") |} |}
  else if defined_and (maxLength config) (num_gt length) then
    ret {| any_value := Inherited value;
           any_error := Some {|
             variable := variableName;
             message := "String is too long (maximum: "
                          ++ template_number (maxLength config)
                          ++ " characters)";
             expected := Some ("string with at most "
                          ++ template_number (maxLength config)
                          ++ " characters");
             received := Some ("string with "
                          ++ template_number (foreign_length value)
                          ++ " characters") |} |}
  else if defined_and (pattern config)
            (fun re => negb (test re (foreign_text value))) then
    ret {| any_value := Inherited value;
           any_error := Some {|
             variable := variableName;
             message := "String does not match required pattern: "
                          ++ template_RegExp (pattern config);
             expected := Some ("string matching "
                          ++ template_RegExp (pattern config));
             received := Some (foreign_text value) |} |}
  else
    ret {| any_value := Inherited value; any_error := None |}.

Definition parseNumber_foreign (value : Foreign) (config : EnvVarConfig)
    (variableName : string) : Completion AnyResult :=
  let num := Number (foreign_text value) in
  if isNaN num then
    ret {| any_value := Data (JNum num);
           any_error := Some {|
             variable := variableName;
             message := "Invalid number format";
             expected := Some "number";
             received := Some (foreign_text value) |} |}
  else if (truthy (integer config) && negb (Number_isInteger num))%bool then
    ret {| any_value := Data (JNum num);
           any_error := Some {|
             variable := variableName;
             message := "Value must be an integer";
             expected := Some "integer";
             received := Some (foreign_text value) |} |}
  else if defined_and (min config) (num_lt num) then
    ret {| any_value := Data (JNum num);
           any_error := Some {|
             variable := variableName;
             message := "Number is below minimum value ("
                          ++ template_number (min config) ++ ")";
             expected := Some ("number >= " ++ template_number (min config));
             received := Some (String_of_number num) |} |}
  else if defined_and (max config) (num_gt num) then
    ret {| any_value := Data (JNum num);
           any_error := Some {|
             variable := variableName;
             message := "Number exceeds maximum value ("
                          ++ template_number (max config) ++ ")";
             expected := Some ("number <= " ++ template_number (max config));
             received := Some (String_of_number num) |} |}
  else
    ret {| any_value := Data (JNum num); any_error := None |}.

(** [value.toLowerCase()] calls [undefined]: a TypeError, outside any
    [try]. *)
Definition parseBoolean_foreign (value : Foreign) (_config : EnvVarConfig)
    (variableName : string) : Completion AnyResult :=
  Throw (mkJsError "TypeError" "value.toLowerCase is not a function").

Definition parseUrl_foreign (value : Foreign) (config : EnvVarConfig)
    (variableName : string) : Completion AnyResult :=
  try_catch
    (url <- new_URL (foreign_text value) ;;
     match protocols config with
     | Some allowed =>
         if negb (includes allowed (slice_0_m1 (protocol url))) then
           ret {| any_value := Inherited value;
                  any_error := Some {|
                    variable := variableName;
                    message := "Invalid URL protocol";
                    expected := Some ("URL with protocol: "
                                        ++ join allowed ", ");
                    received := Some (slice_0_m1 (protocol url)) |} |}
         else
           ret {| any_value := Inherited value; any_error := None |}
     | None =>
         ret {| any_value := Inherited value; any_error := None |}
     end)
    (fun _error =>
       ret {| any_value := Inherited value;
              any_error := Some {|
                variable := variableName;
                message := "Invalid URL format";
                expected := Some "valid URL";
                received := Some (foreign_text value) |} |}).

Definition parseJson_foreign (value : Foreign) (_config : EnvVarConfig)
    (variableName : string) : Completion AnyResult :=
  try_catch
    (parsed <- JSON_parse (foreign_text value) ;;
     ret {| any_value := Data parsed; any_error := None |})
    (fun _error =>
       ret {| any_value := Data JUndefined;
              any_error := Some {|
                variable := variableName;
                message := "Invalid JSON format";
                expected := Some "valid JSON string";
                received := Some (foreign_text value) |} |}).

(** [config.values.includes(value)] is [false]: the values are strings. *)
Definition parseEnum_foreign (value : Foreign) (config : EnvVarConfig)
    (variableName : string) : Completion AnyResult :=
  ret {| any_value := Inherited value;
         any_error := Some {|
           variable := variableName;
           message := "Value must be one of: " ++ join (values config) ", ";
           expected := Some (join (values config) ", ");
           received := Some (foreign_text value) |} |}.

(** [parseValue] on a value that is neither [undefined] nor the empty
    string, so the switch on the type is reached. *)
Definition parseValue_foreign (rawValue : Foreign) (config : EnvVarConfig)
    (variableName : string) : Completion AnyResult :=
  if String.eqb (type config) "string" then
    parseString_foreign rawValue config variableName
  else if String.eqb (type config) "number" then
    parseNumber_foreign rawValue config variableName
  else if String.eqb (type config) "boolean" then
    parseBoolean_foreign rawValue config variableName
  else if String.eqb (type config) "url" then
    parseUrl_foreign rawValue config variableName
  else if String.eqb (type config) "json" then
    parseJson_foreign rawValue config variableName
  else if String.eqb (type config) "enum" then
    parseEnum_foreign rawValue config variableName
  else
    ret {| any_value := Data JUndefined;
           any_error := Some {|
             variable := variableName;
             message := "Unknown type: " ++ type config;
             expected := None;
             received := Some (foreign_text rawValue) |} |}.

(** [parseValue] on whatever [env[key]] is. *)
Definition parseValue_raw (rawValue : RawValue) (config : EnvVarConfig)
    (variableName : string) : Completion AnyResult :=
  match rawValue with
  | RawUndefined =>
      r <- parseValue None config variableName ;; ret (as_any r)
  | RawString s =>
      r <- parseValue (Some s) config variableName ;; ret (as_any r)
  | RawForeign f => parseValue_foreign f config variableName
  end.

End ParserForeign.

(** ** [src/core/validator.ts] *)

(** [xs.push(x)]. *)
Definition push {A : Type} (xs : list A) (x : A) : list A := (xs ++ [x])%list.

(** The prototype of an object: [Object.prototype], as for every object
    literal, or what an assignment to [__proto__] has put there. *)
Inductive Prototype : Type :=
| ObjectPrototype
| PrototypeValue (v : AnyValue).

(** The object [parseEnv] builds: its own properties and its prototype. *)
Record ResultObject : Type := mkResultObject {
  own : JsObject AnyValue;
  proto : Prototype
}.

(** [{}]. *)
Definition empty_object : ResultObject :=
  {| own := []; proto := ObjectPrototype |}.

(** An object or [null], the values that the setter of [__proto__]
    accepts. *)
Definition is_object_or_null (v : AnyValue) : bool :=
  match v with
  | Data JNull | Data (JArr _) | Data (JObj _) | Inherited _ => true
  | _ => false
  end.

(** [result[key] = value]: the name [__proto__] reaches the setter of
    [Object.prototype], which changes the prototype when [value] is an
    object or [null], does nothing otherwise, and never creates a
    property; any other name creates or updates an own property.
    ([parseEnv] assigns each schema key once, to an object that starts as
    [{}]; a prototype it is given is data or [Object.prototype] itself,
    which have no property that refuses an assignment.) *)
Definition assign (result : ResultObject) (key : string) (value : AnyValue)
  : ResultObject :=
  if String.eqb key "__proto__" then
    if is_object_or_null value
    then {| own := own result; proto := PrototypeValue value |}
    else result
  else
    {| own := set_own (own result) key value; proto := proto result |}.

Section Validator.

Context {host : Host} {realm : Realm}.

(** The first loop of [validateEnv], over [Object.entries(schema)];
    [errors] is the array built so far. *)
Fixpoint validate_loop (env : JsObject (option string))
    (entries : list (string * EnvVarConfig))
    (errors : list ValidationError)
  : Completion (list ValidationError) :=
  match entries with
  | [] => ret errors
  | (key, config) :: rest =>
      let rawValue := env_read env key in
      r <- parseValue_raw rawValue config key ;;
      match any_error r with
      | Some e => validate_loop env rest (push errors e)
      | None => validate_loop env rest errors
      end
  end.

(** [env[key] !== undefined]. *)
Definition reads_defined (env : JsObject (option string)) (key : string)
  : bool :=
  match env_read env key with
  | RawUndefined => false
  | _ => true
  end.

(** The second loop of [validateEnv], over [Object.keys(env)]. *)
Fixpoint warning_loop (env : JsObject (option string))
    (schemaKeys : list string) (keys : list string)
    (warnings : list string) : list string :=
  match keys with
  | [] => warnings
  | key :: rest =>
      if (negb (includes schemaKeys key) && reads_defined env key)%bool
      then
        warning_loop env schemaKeys rest
          (push warnings
             ("Environment variable " ++ dquote ++ key ++ dquote
                ++ " is not defined in schema"))
      else
        warning_loop env schemaKeys rest warnings
  end.

Definition validateEnv (env : JsObject (option string)) (schema : EnvSchema)
  : Completion ValidationResult :=
  errors <- validate_loop env (Object_entries schema) [] ;;
  let schemaKeys := Object_keys schema in
  let warnings := warning_loop env schemaKeys (Object_keys env) [] in
  ret {| valid := Nat.eqb (List.length errors) 0;
         errors := errors;
         warnings := warnings |}.

(** A string read as a condition: defined and not empty. *)
Definition truthy_string (o : option string) : bool :=
  match o with
  | Some s => negb (String.eqb s EmptyString)
  | None => false
  end.

Definition template_string (o : option string) : string :=
  match o with
  | Some s => s
  | None => "undefined"
  end.

Definition formatValidationErrors (errors : list ValidationError) : string :=
  join
    (map (fun error =>
            let msg := "  ✘ " ++ variable error ++ ": " ++ message error in
            let msg :=
              if truthy_string (expected error)
              then msg ++ newline ++ "    Expected: "
                       ++ template_string (expected error)
              else msg in
            let msg :=
              match received error with
              | Some r => msg ++ newline ++ "    Received: " ++ r
              | None => msg
              end in
            msg)
         errors)
    (newline ++ newline).

(** The loop of [parseEnv]; [result] and [errors] are the object and the
    array built so far. *)
Fixpoint parse_loop (env : JsObject (option string))
    (entries : list (string * EnvVarConfig))
    (result : ResultObject) (errors : list ValidationError)
  : Completion (ResultObject * list ValidationError) :=
  match entries with
  | [] => ret (result, errors)
  | (key, config) :: rest =>
      let rawValue := env_read env key in
      r <- parseValue_raw rawValue config key ;;
      match any_error r with
      | Some e => parse_loop env rest result (push errors e)
      | None => parse_loop env rest (assign result key (any_value r)) errors
      end
  end.

Definition parseEnv (env : JsObject (option string)) (schema : EnvSchema)
  : Completion ResultObject :=
  st <- parse_loop env (Object_entries schema) empty_object [] ;;
  let (result, errors) := st in
  if Nat.ltb 0 (List.length errors) then
    Throw (new_Error ("Environment validation failed:" ++ newline
                        ++ formatValidationErrors errors))
  else
    ret result.

End Validator.

(** ** [src/index.ts] *)

(** A call to the console, with the text it prints. *)
Inductive ConsoleCall : Type :=
| console_log (text : string)
| console_error (text : string).

(** The second argument of [createEnv]; each property may be left out. *)
Record CreateEnvOptions : Type := mkOptions {
  env : option (JsObject (option string));
  throwOnError : option bool;
  verbose : option bool
}.

(** A destructuring default, [{ x = d } = options]. *)
Definition or_default {A : Type} (o : option A) (d : A) : A :=
  match o with
  | Some a => a
  | None => d
  end.

Section Index.

Context {host : Host} {realm : Realm}.

(** [process.env] at the time of the call. *)
Variable process_env : JsObject (option string).

(** [createEnv(schema, options)]: the console calls it makes, in order,
    and its outcome. *)
Definition createEnv (schema : EnvSchema) (options : CreateEnvOptions)
  : list ConsoleCall * Completion ResultObject :=
  let env := or_default (env options) process_env in
  let throwOnError := or_default (throwOnError options) true in
  let verbose := or_default (verbose options) false in
  match parseEnv env schema with
  | Normal result =>
      (if verbose
       then [console_log "✔ Environment validation successful"]
       else [],
       Normal result)
  | Throw error =>
      let printed :=
        if (verbose || throwOnError)%bool
        then [console_error (error_message error)]
        else [] in
      if throwOnError then (printed, Throw error)
      else (printed, Normal empty_object)
  end.

(** [validate(schema, env = process.env)]. *)
Definition validate (schema : EnvSchema)
    (env : option (JsObject (option string)))
  : Completion ValidationResult :=
  validateEnv (or_default env process_env) schema.

End Index.

(** ** A host and a realm to run the model on

    The theorems below are proved for every host and every realm.  To
    evaluate the code on the scenarios of the specification,
    [example_host] answers from what the builtins give on the inputs used
    there: [Number] reads a string of decimal digits and otherwise looks
    the literal up, [String_of_number] prints integers, [new_URL] and
    [JSON_parse] know the listed inputs.  On any other input it answers
    NaN, the empty string, or throws.  [example_realm] has the methods of
    [Object.prototype] in Node. *)

Module Example.

Fixpoint lookup {A : Type} (table : list (string * A)) (s : string)
  : option A :=
  match table with
  | [] => None
  | (k, a) :: rest => if String.eqb s k then Some a else lookup rest s
  end.

Definition numbers : list (string * number) :=
  [ ("3.14", S754_finite false 7070651414971679 (-51));
    ("2.5", S754_finite false 5629499534213120 (-51));
    ("-5", number_of_Z (-5));
    (" 42 ", number_of_Z 42);
    ("1e3", number_of_Z 1000);
    ("Infinity", S754_infinity false);
    ("not-a-number", NaN);
    ("invalid", NaN) ].

Definition Number (s : string) : number :=
  match decimal_value s 0 with
  | Some n => number_of_Z (Z.of_N n)
  | None =>
      match lookup numbers s with
      | Some x => x
      | None => NaN
      end
  end.

Definition integer_value (x : number) : option Z :=
  match x with
  | S754_zero _ => Some 0%Z
  | S754_finite s m e =>
      let magnitude :=
        if Z.leb 0 e then Some (Z.pos m * 2 ^ e)%Z
        else if Z.eqb (Z.modulo (Z.pos m) (2 ^ (- e))) 0
             then Some (Z.pos m / 2 ^ (- e))%Z
             else None in
      match magnitude with
      | Some z => Some (if s then (- z)%Z else z)
      | None => None
      end
  | _ => None
  end.

Definition String_of_number (x : number) : string :=
  match x with
  | S754_nan => "NaN"
  | S754_infinity s => if s then "-Infinity" else "Infinity"
  | _ =>
      match integer_value x with
      | Some z =>
          if Z.ltb (Z.abs z) (10 ^ 21)
          then NilZero.string_of_int (Z.to_int z)
          else EmptyString
      | None =>
          match x with
          | S754_finite false 7070651414971679 (-51) => "3.14"
          | S754_finite false 5629499534213120 (-51) => "2.5"
          | _ => EmptyString
          end
      end
  end.

Definition urls : list (string * URL) :=
  [ ("https://example.com", mkURL "https:");
    ("http://localhost:3000", mkURL "http:");
    ("ftp://example.com", mkURL "ftp:");
    ("postgres://user:pw@db:5432/app", mkURL "postgres:") ].

Definition new_URL (s : string) : Completion URL :=
  match lookup urls s with
  | Some u => Normal u
  | None => Throw (mkJsError "TypeError" "Invalid URL")
  end.

Definition jsons : list (string * JsValue) :=
  [ ("null", JNull);
    ("true", JBool true);
    ("[]", JArr []);
    ("{}", JObj []) ].

Definition JSON_parse (s : string) : Completion JsValue :=
  match lookup jsons s with
  | Some v => Normal v
  | None => Throw (mkJsError "SyntaxError" "Unexpected token")
  end.

Definition example_host : Host :=
  Build_Host Number String_of_number new_URL JSON_parse.

(** The methods that [Object.prototype] has in Node, each with its arity
    and its text. *)
Definition native (name : string) (arity : nat) : string * RawValue :=
  (name,
   RawForeign
     {| foreign_length := Some (number_of_nat arity);
        foreign_text := "function " ++ name ++ "() { [native code] }" |}).

Definition example_realm : Realm :=
  Build_Realm
    [ ("constructor",
       RawForeign
         {| foreign_length := Some (number_of_nat 1);
            foreign_text := "function Object() { [native code] }" |});
      native "__defineGetter__" 2;
      native "__defineSetter__" 2;
      native "hasOwnProperty" 1;
      native "__lookupGetter__" 1;
      native "__lookupSetter__" 1;
      native "isPrototypeOf" 1;
      native "propertyIsEnumerable" 1;
      native "toString" 0;
      native "valueOf" 0;
      native "toLocaleString" 0 ].

End Example.

(** ** Vocabulary of the specification *)


(** The three constraint checks of a number descriptor, as the
    specification words them. *)
Definition passes_integer (config : EnvVarConfig) (num : number) : Prop :=
  integer config = Some true -> Number_isInteger num = true.

Definition passes_min (config : EnvVarConfig) (num : number) : Prop :=
  forall m, min config = Some m -> num_lt num m = false.

Definition passes_max (config : EnvVarConfig) (num : number) : Prop :=
  forall m, max config = Some m -> num_gt num m = false.



(** Parsing one schema entry against [env], as both loops of the
    validator do. *)
Definition parse_entry {host : Host} {realm : Realm}
    (env : JsObject (option string)) (entry : string * EnvVarConfig)
  : Completion AnyResult :=
  parseValue_raw (env_read env (fst entry)) (snd entry) (fst entry).

(** The error, if any, that parsing one schema entry returns. *)
Definition entry_error {host : Host} {realm : Realm}
    (env : JsObject (option string)) (entry : string * EnvVarConfig)
  : option ValidationError :=
  match parse_entry env entry with
  | Normal r => any_error r
  | Throw _ => None
  end.

(** The errors of a list of schema entries, entry by entry. *)
Definition entry_errors {host : Host} {realm : Realm}
    (env : JsObject (option string))
    (entries : list (string * EnvVarConfig)) : list ValidationError :=
  flat_map (fun entry =>
              match entry_error env entry with
              | Some e => [e]
              | None => []
              end)
           entries.

(** The exception of the first entry whose parse throws. *)
Fixpoint first_throw {host : Host} {realm : Realm}
    (env : JsObject (option string))
    (entries : list (string * EnvVarConfig)) : option JsError :=
  match entries with
  | [] => None
  | entry :: rest =>
      match parse_entry env entry with
      | Throw exn => Some exn
      | Normal _ => first_throw env rest
      end
  end.

(** The object after assigning, entry by entry, the values of the
    entries that parse without error. *)
Fixpoint collect {host : Host} {realm : Realm}
    (env : JsObject (option string))
    (entries : list (string * EnvVarConfig)) (result : ResultObject)
  : ResultObject :=
  match entries with
  | [] => result
  | entry :: rest =>
      match parse_entry env entry with
      | Normal r =>
          match any_error r with
          | Some _ => collect env rest result
          | None =>
              collect env rest (assign result (fst entry) (any_value r))
          end
      | Throw _ => result
      end
  end.

(** A name other than [__proto__]. *)
Definition not_proto (key : string) : bool :=
  negb (String.eqb key "__proto__").

(** Every schema key reads, in [env], as the declared type has it: a
    string or [undefined], not an inherited function or object. *)
Definition reads_declared {realm : Realm} (env : JsObject (option string))
    (schema : EnvSchema) : Prop :=
  forall key f, In key (map fst schema) -> env_read env key <> RawForeign f.





(** The warning for a variable that the schema does not declare. *)
Definition not_in_schema_warning (key : string) : string :=
  "Environment variable " ++ dquote ++ key ++ dquote
    ++ " is not defined in schema".

(** [s.includes(sub)]: [sub] occurs in [s]. *)
Definition contains (s sub : string) : Prop :=
  exists before after, s = before ++ sub ++ after.

(** Two descriptors with the same type and the same constraints; they may
    differ in [required], [default] and [description]. *)
Definition same_constraints (c1 c2 : EnvVarConfig) : Prop :=
  type c1 = type c2
  /\ minLength c1 = minLength c2
  /\ maxLength c1 = maxLength c2
  /\ pattern c1 = pattern c2
  /\ min c1 = min c2
  /\ max c1 = max c2
  /\ integer c1 = integer c2
  /\ protocols c1 = protocols c2
  /\ values c1 = values c2.

(** The six types of [EnvVarType]. *)
Definition known_types : list string :=
  ["string"; "number"; "boolean"; "url"; "json"; "enum"].

(** A raw value with the empty string read as [undefined]. *)
Definition nonblank (rawValue : RawValue) : RawValue :=
  match rawValue with
  | RawString EmptyString => RawUndefined
  | _ => rawValue
  end.

(** The environment with every variable that is set to the empty string
    set to [undefined]. *)
Definition blank_as_unset (env : JsObject (option string))
  : JsObject (option string) :=
  map (fun kv =>
         (fst kv,
          match snd kv with
          | Some EmptyString => None
          | rawValue => rawValue
          end))
      env.

(** The variable reads as a defined value in [env] and [schema] does not
    declare it. *)
Definition undeclared {realm : Realm} (env : JsObject (option string))
    (schema : EnvSchema) (key : string) : bool :=
  (negb (includes (map fst schema) key) && reads_defined env key)%bool.

(** The three constraint checks of a string descriptor. *)
Definition passes_minLength (config : EnvVarConfig) (raw : string) : Prop :=
  forall m, minLength config = Some m ->
            num_lt (number_of_nat (String.length raw)) m = false.

Definition passes_maxLength (config : EnvVarConfig) (raw : string) : Prop :=
  forall m, maxLength config = Some m ->
            num_gt (number_of_nat (String.length raw)) m = false.

Definition passes_pattern (config : EnvVarConfig) (raw : string) : Prop :=
  forall re, pattern config = Some re -> test re raw = true.

(** The parse of some schema key against [env] returns an error. *)
Definition some_key_fails {host : Host} {realm : Realm}
    (env : JsObject (option string)) (schema : EnvSchema) : Prop :=
  exists key config r e,
    In (key, config) schema
    /\ parseValue_raw (env_read env key) config key = Normal r
    /\ any_error r = Some e.

(** Descriptors used in the examples. *)
Definition number_3000 : JsValue := JNum (number_of_Z 3000).

Definition descriptor (t : string) : EnvVarConfig :=
  mkConfig t None JUndefined None None None None None None None None [].

Definition with_default (c : EnvVarConfig) (d : JsValue) : EnvVarConfig :=
  mkConfig (type c) (required c) d (description c) (minLength c)
    (maxLength c) (pattern c) (min c) (max c) (integer c) (protocols c)
    (values c).

Definition with_required (c : EnvVarConfig) (b : bool) : EnvVarConfig :=
  mkConfig (type c) (Some b) (default c) (description c) (minLength c)
    (maxLength c) (pattern c) (min c) (max c) (integer c) (protocols c)
    (values c).

Definition with_range (c : EnvVarConfig) (lo hi : Z) : EnvVarConfig :=
  mkConfig (type c) (required c) (default c) (description c) (minLength c)
    (maxLength c) (pattern c) (Some (number_of_Z lo)) (Some (number_of_Z hi))
    (integer c) (protocols c) (values c).

Definition with_minLength (c : EnvVarConfig) (n : Z) : EnvVarConfig :=
  mkConfig (type c) (required c) (default c) (description c)
    (Some (number_of_Z n)) (maxLength c) (pattern c) (min c) (max c)
    (integer c) (protocols c) (values c).

Definition with_protocols (c : EnvVarConfig) (ps : list string)
  : EnvVarConfig :=
  mkConfig (type c) (required c) (default c) (description c) (minLength c)
    (maxLength c) (pattern c) (min c) (max c) (integer c) (Some ps)
    (values c).

Definition with_values (c : EnvVarConfig) (vs : list string) : EnvVarConfig :=
  mkConfig (type c) (required c) (default c) (description c) (minLength c)
    (maxLength c) (pattern c) (min c) (max c) (integer c) (protocols c) vs.

(** * Properties *)

(** Case analysis on every condition of the goal. *)
Ltac split_conditions :=
  repeat match goal with
         | |- context [if ?b then _ else _] => destruct b eqn:?
         end.

(** ** The object model *)

Section ObjectFacts.

Context {V : Type}.

Lemma get_own_set_own_same (o : JsObject V) (k : string) (v : V) :
  get_own (set_own o k v) k = Some v.
Proof.
  induction o as [| [k' v'] rest IH]; simpl.
  - now rewrite String.eqb_refl.
  - destruct (String.eqb k k') eqn:E; simpl.
    + now rewrite String.eqb_refl.
    + now rewrite E.
Qed.

Lemma get_own_set_own_other (o : JsObject V) (k k0 : string) (v : V) :
  k0 <> k -> get_own (set_own o k v) k0 = get_own o k0.
Proof.
  intros Hne.
  induction o as [| [k' v'] rest IH]; simpl.
  - apply String.eqb_neq in Hne. now rewrite Hne.
  - destruct (String.eqb k k') eqn:E; simpl.
    + apply String.eqb_eq in E. subst k'.
      apply String.eqb_neq in Hne. now rewrite Hne.
    + now rewrite IH.
Qed.

Lemma get_own_In (o : JsObject V) (k : string) (v : V) :
  get_own o k = Some v -> In (k, v) o.
Proof.
  induction o as [| [k' v'] rest IH]; simpl; [discriminate |].
  destruct (String.eqb k k') eqn:E.
  - apply String.eqb_eq in E. intros [= ->]. subst. now left.
  - intros H. right. now apply IH.
Qed.

Lemma insert_indexed_perm (x : N * (string * V)) l :
  Permutation (insert_indexed x l) (x :: l).
Proof.
  induction l as [| y rest IH]; simpl; [reflexivity |].
  destruct (N.leb (fst x) (fst y)); [reflexivity |].
  rewrite IH. apply perm_swap.
Qed.

Lemma sort_indexed_perm (l : list (N * (string * V))) :
  Permutation (sort_indexed l) l.
Proof.
  induction l as [| x rest IH]; simpl; [reflexivity |].
  rewrite insert_indexed_perm. now constructor.
Qed.

Lemma indexed_named_perm (o : JsObject V) :
  Permutation (map snd (indexed o) ++ filter is_named o)%list o.
Proof.
  induction o as [| kv rest IH]; simpl; [reflexivity |].
  unfold is_named at 1.
  destruct (array_index (fst kv)); simpl.
  - now constructor.
  - rewrite <- Permutation_middle. now constructor.
Qed.

(** [Object.entries] enumerates exactly the own properties. *)
Lemma Object_entries_perm (o : JsObject V) :
  Permutation (Object_entries o) o.
Proof.
  unfold Object_entries.
  rewrite (Permutation_map snd (sort_indexed_perm (indexed o))).
  apply indexed_named_perm.
Qed.

Lemma Object_entries_In (o : JsObject V) (kv : string * V) :
  In kv (Object_entries o) <-> In kv o.
Proof.
  split; apply Permutation_in;
    [apply Object_entries_perm | symmetry; apply Object_entries_perm].
Qed.

Lemma Object_keys_In (o : JsObject V) (k : string) :
  In k (Object_keys o) <-> In k (map fst o).
Proof.
  unfold Object_keys.
  split; apply Permutation_in; apply Permutation_map;
    [apply Object_entries_perm | symmetry; apply Object_entries_perm].
Qed.

Lemma Object_keys_NoDup (o : JsObject V) :
  obj_wf o -> NoDup (Object_keys o).
Proof.
  unfold obj_wf, Object_keys. intros H.
  eapply Permutation_NoDup; [| exact H].
  apply Permutation_map. symmetry. apply Object_entries_perm.
Qed.



Lemma insert_indexed_sorted (x : N * (string * V)) l :
  Sorted (fun a b => (fst a <= fst b)%N) l ->
  Sorted (fun a b => (fst a <= fst b)%N) (insert_indexed x l).
Proof.
  induction 1 as [| y rest Hs IH Hhd]; simpl.
  - repeat constructor.
  - destruct (N.leb (fst x) (fst y)) eqn:E.
    + constructor; [now constructor |].
      constructor. now apply N.leb_le.
    + apply N.leb_gt in E.
      constructor; [exact IH |].
      destruct rest as [| z rest']; simpl.
      * constructor. lia.
      * destruct (N.leb (fst x) (fst z)); constructor; [lia |].
        now inversion Hhd.
Qed.

(** The array-index part of [Object.entries] ascends. *)
Lemma sort_indexed_sorted (l : list (N * (string * V))) :
  Sorted (fun a b => (fst a <= fst b)%N) (sort_indexed l).
Proof.
  induction l as [| x rest IH]; simpl; [constructor |].
  now apply insert_indexed_sorted.
Qed.

End ObjectFacts.

(** ** The value parser *)

Section ParserFacts.

Context {host : Host}.

Lemma parseString_returns raw config name :
  exists r, parseString raw config name = Normal r
            /\ value r = JStr raw
            /\ forall e, error r = Some e -> variable e = name.
Proof.
  unfold parseString, ret. split_conditions;
    (eexists; split; [reflexivity | split; [reflexivity |]]);
    simpl; intros ? [= <-]; reflexivity.
Qed.

Lemma parseNumber_returns raw config name :
  exists r, parseNumber raw config name = Normal r
            /\ value r = JNum (Number raw)
            /\ forall e, error r = Some e -> variable e = name.
Proof.
  unfold parseNumber, ret. split_conditions;
    (eexists; split; [reflexivity | split; [reflexivity |]]);
    simpl; intros ? [= <-]; reflexivity.
Qed.

Lemma parseBoolean_returns raw config name :
  exists r, parseBoolean raw config name = Normal r
            /\ forall e, error r = Some e -> variable e = name.
Proof.
  unfold parseBoolean, ret. split_conditions;
    (eexists; split; [reflexivity |]);
    simpl; intros ? [= <-]; reflexivity.
Qed.

(** Whatever [new URL] does, [parseUrl] returns: the exception is caught,
    and the value is the raw string on every path. *)
Lemma parseUrl_returns raw config name :
  exists r, parseUrl raw config name = Normal r
            /\ value r = JStr raw
            /\ forall e, error r = Some e -> variable e = name.
Proof.
  unfold parseUrl, try_catch, bind, ret.
  destruct (new_URL raw) as [url |]; [destruct (protocols config) |];
    split_conditions;
    (eexists; split; [reflexivity | split; [reflexivity |]]);
    simpl; intros ? [= <-]; reflexivity.
Qed.

Lemma parseJson_returns raw config name :
  exists r, parseJson raw config name = Normal r
            /\ forall e, error r = Some e -> variable e = name.
Proof.
  unfold parseJson, try_catch, bind, ret.
  destruct (JSON_parse raw);
    (eexists; split; [reflexivity |]);
    simpl; intros ? [= <-]; reflexivity.
Qed.

Lemma parseEnum_returns raw config name :
  exists r, parseEnum raw config name = Normal r
            /\ value r = JStr raw
            /\ forall e, error r = Some e -> variable e = name.
Proof.
  unfold parseEnum, ret. split_conditions;
    (eexists; split; [reflexivity | split; [reflexivity |]]);
    simpl; intros ? [= <-]; reflexivity.
Qed.

(** The parser never throws, and an error it reports names the variable
    it was called for. *)
Lemma parseValue_returns rawValue config name :
  exists r, parseValue rawValue config name = Normal r
            /\ forall e, error r = Some e -> variable e = name.
Proof.
  unfold parseValue.
  destruct rawValue as [[| c s] |].
  1, 3: unfold ret; split_conditions;
    (eexists; split; [reflexivity |]); simpl; intros ? [= <-]; reflexivity.
  destruct (String.eqb (type config) "string");
    [destruct (parseString_returns (String c s) config name)
      as (r & -> & _ & H); eauto |].
  destruct (String.eqb (type config) "number");
    [destruct (parseNumber_returns (String c s) config name)
      as (r & -> & _ & H); eauto |].
  destruct (String.eqb (type config) "boolean");
    [destruct (parseBoolean_returns (String c s) config name)
      as (r & -> & H); eauto |].
  destruct (String.eqb (type config) "url");
    [destruct (parseUrl_returns (String c s) config name)
      as (r & -> & _ & H); eauto |].
  destruct (String.eqb (type config) "json");
    [destruct (parseJson_returns (String c s) config name)
      as (r & -> & H); eauto |].
  destruct (String.eqb (type config) "enum");
    [destruct (parseEnum_returns (String c s) config name)
      as (r & -> & _ & H); eauto |].
  unfold ret. eexists; split; [reflexivity |].
  simpl; intros ? [= <-]; reflexivity.
Qed.

Lemma is_defined_true v : v <> JUndefined -> is_defined v = true.
Proof. destruct v; intros H; try reflexivity. now elim H. Qed.

Lemma not_false_true o : o <> Some false -> not_false o = true.
Proof. destruct o as [[|] |]; intros H; try reflexivity. now elim H. Qed.

(** What [parseValue] does with a missing raw value, as one equation. *)
Lemma parseValue_missing rawValue config name :
  rawValue = None \/ rawValue = Some EmptyString ->
  parseValue rawValue config name =
  if is_defined (default config) then
    Normal {| value := default config; error := None |}
  else if not_false (required config) then
    Normal {| value := JUndefined;
              error := Some {|
                variable := name;
                message := "Required environment variable is missing";
                expected := Some (type config ++ " value");
                received := Some "undefined" |} |}
  else
    Normal {| value := JUndefined; error := None |}.
Proof. intros [-> | ->]; reflexivity. Qed.

(** A raw string with at least one code unit goes to the parser of the
    descriptor's type. *)
Lemma parseValue_present raw config name :
  raw <> EmptyString ->
  parseValue (Some raw) config name =
  if String.eqb (type config) "string" then parseString raw config name
  else if String.eqb (type config) "number" then parseNumber raw config name
  else if String.eqb (type config) "boolean" then parseBoolean raw config name
  else if String.eqb (type config) "url" then parseUrl raw config name
  else if String.eqb (type config) "json" then parseJson raw config name
  else if String.eqb (type config) "enum" then parseEnum raw config name
  else Normal {| value := JUndefined;
                 error := Some {|
                   variable := name;
                   message := "Unknown type: " ++ type config;
                   expected := None;
                   received := Some raw |} |}.
Proof. destruct raw; [intros H; now elim H | reflexivity]. Qed.

(** C1.  When the raw value is absent or the empty string, [parseValue]
    resolves in a fixed order: a defined default is returned with no error,
    whatever the required flag; otherwise, unless [required] is explicitly
    [false], the error is MissingRequired, with message "Required
    environment variable is missing", expected "<type> value" and received
    "undefined"; otherwise there is no value and no error. *)
Theorem parseValue_missing_resolution
    (config : EnvVarConfig) (name : string) (rawValue : option string) :
  rawValue = None \/ rawValue = Some EmptyString ->
  (default config <> JUndefined ->
   parseValue rawValue config name =
   Normal {| value := default config; error := None |})
  /\ (default config = JUndefined -> required config <> Some false ->
      parseValue rawValue config name =
      Normal {| value := JUndefined;
                error := Some {|
                  variable := name;
                  message := "Required environment variable is missing";
                  expected := Some (type config ++ " value");
                  received := Some "undefined" |} |})
  /\ (default config = JUndefined -> required config = Some false ->
      parseValue rawValue config name =
      Normal {| value := JUndefined; error := None |}).
Proof.
  intros Hraw. rewrite (parseValue_missing _ _ _ Hraw).
  repeat split.
  - intros Hd. now rewrite (is_defined_true _ Hd).
  - intros Hd Hr. rewrite Hd. simpl. now rewrite (not_false_true _ Hr).
  - intros Hd Hr. rewrite Hd, Hr. reflexivity.
Qed.

(** C9.  The empty string and an absent raw value give the same result,
    for every descriptor and on every branch (default, MissingRequired,
    optional without value).  The only error the empty string can give is
    MissingRequired, so never TooShort and never PatternMismatch. *)
Theorem parseValue_empty_string_is_absent
    (config : EnvVarConfig) (name : string) :
  parseValue (Some EmptyString) config name = parseValue None config name
  /\ exists r,
       parseValue (Some EmptyString) config name = Normal r
       /\ (error r = None
           \/ exists e,
                error r = Some e
                /\ message e = "Required environment variable is missing"
                /\ startsWith (message e) "String is too short" = false
                /\ startsWith (message e)
                     "String does not match required pattern" = false).
Proof.
  split; [reflexivity |].
  rewrite (parseValue_missing (Some EmptyString) config name)
    by (right; reflexivity).
  destruct (is_defined (default config));
    [| destruct (not_false (required config))];
    eexists; (split; [reflexivity |]); simpl; auto.
  right. eexists. repeat split.
Qed.

(** C10.  With a defined default and an absent or empty raw value, the
    default is returned as it is, with no error: the descriptor's type,
    [minLength], [min], [max] and [values] are not consulted, so a default
    that breaks any of them, or is of another type than the field, is
    returned all the same. *)
Theorem parseValue_default_unchecked
    (config : EnvVarConfig) (name : string) (rawValue : option string) :
  rawValue = None \/ rawValue = Some EmptyString ->
  default config <> JUndefined ->
  parseValue rawValue config name =
  Normal {| value := default config; error := None |}.
Proof.
  intros Hraw Hd.
  rewrite (parseValue_missing _ _ _ Hraw).
  now rewrite (is_defined_true _ Hd).
Qed.

Lemma includes_In (xs : list string) (x : string) :
  includes xs x = true <-> In x xs.
Proof.
  unfold includes. rewrite existsb_exists. split.
  - intros (y & Hy & E). apply String.eqb_eq in E. now subst.
  - intros H. exists x. split; [exact H | apply String.eqb_refl].
Qed.

Lemma includes_not_In (xs : list string) (x : string) :
  includes xs x = false <-> ~ In x xs.
Proof.
  rewrite <- includes_In.
  destruct (includes xs x); split; intros H; try reflexivity.
  - discriminate.
  - now elim H.
  - discriminate.
Qed.

(** C7.  For a boolean descriptor and a raw string that is not empty, the
    string is lower-cased and trimmed; "true", "1" and "yes" give [true]
    with no error, "false", "0" and "no" give [false] with no error, and
    anything else gives the value [false] with the error InvalidBoolean:
    message "Invalid boolean value", expected "true, false, 1, 0, yes, or
    no", received the raw string. *)
Theorem parseValue_boolean
    (config : EnvVarConfig) (name raw : string) :
  type config = "boolean" ->
  raw <> EmptyString ->
  let lowered := trim (toLowerCase raw) in
  (In lowered ["true"; "1"; "yes"] ->
   parseValue (Some raw) config name =
   Normal {| value := JBool true; error := None |})
  /\ (In lowered ["false"; "0"; "no"] ->
      parseValue (Some raw) config name =
      Normal {| value := JBool false; error := None |})
  /\ (~ In lowered ["true"; "1"; "yes"; "false"; "0"; "no"] ->
      parseValue (Some raw) config name =
      Normal {| value := JBool false;
                error := Some {|
                  variable := name;
                  message := "Invalid boolean value";
                  expected := Some "true, false, 1, 0, yes, or no";
                  received := Some raw |} |}).
Proof.
  intros Ht Hraw lowered.
  rewrite (parseValue_present raw config name Hraw), Ht. simpl.
  unfold parseBoolean. fold lowered.
  repeat split.
  - intros [H | [H | [H | []]]]; rewrite <- H; reflexivity.
  - intros [H | [H | [H | []]]]; rewrite <- H; reflexivity.
  - intros H.
    assert (Hne : forall s,
               In s ["true"; "1"; "yes"; "false"; "0"; "no"] ->
               String.eqb lowered s = false).
    { intros s Hs. apply String.eqb_neq. intros ->. now apply H. }
    rewrite !Hne by (simpl; tauto). reflexivity.
Qed.

(** C8.  For a url descriptor and a raw string that is not empty and
    parses as a URL: with an allow-list of protocols, the scheme of the
    parsed URL (its [protocol] without the final colon) has to be in the
    list, otherwise the error is InvalidProtocol; on success, and indeed
    on every path, the value is the raw string itself. *)
Theorem parseValue_url
    (config : EnvVarConfig) (name raw : string) (url : URL) :
  type config = "url" ->
  raw <> EmptyString ->
  new_URL raw = Normal url ->
  let scheme := slice_0_m1 (protocol url) in
  (forall allowed, protocols config = Some allowed -> In scheme allowed ->
     parseValue (Some raw) config name =
     Normal {| value := JStr raw; error := None |})
  /\ (forall allowed, protocols config = Some allowed -> ~ In scheme allowed ->
       parseValue (Some raw) config name =
       Normal {| value := JStr raw;
                 error := Some {|
                   variable := name;
                   message := "Invalid URL protocol";
                   expected := Some ("URL with protocol: "
                                       ++ join allowed ", ");
                   received := Some scheme |} |})
  /\ (protocols config = None ->
      parseValue (Some raw) config name =
      Normal {| value := JStr raw; error := None |})
  /\ (forall r, parseValue (Some raw) config name = Normal r ->
                value r = JStr raw).
Proof.
  intros Ht Hraw Hurl scheme.
  rewrite (parseValue_present raw config name Hraw), Ht. simpl.
  unfold parseUrl. rewrite Hurl. simpl. fold scheme.
  repeat split.
  - intros allowed -> Hin.
    apply includes_In in Hin. now rewrite Hin.
  - intros allowed -> Hin.
    apply includes_not_In in Hin. now rewrite Hin.
  - intros ->. reflexivity.
  - intros r. destruct (protocols config) as [allowed |].
    + destruct (includes allowed scheme); simpl; intros [= <-]; reflexivity.
    + intros [= <-]. reflexivity.
Qed.

Lemma SFcompare_Eq_sym (x y : number) :
  SFcompare x y = Some Eq -> SFcompare y x = Some Eq.
Proof.
  destruct x as [sx | sx | | sx mx ex], y as [sy | sy | | sy my ey];
    simpl; try discriminate; try reflexivity;
    try (destruct sx; discriminate); try (destruct sy; discriminate).
  - destruct sx, sy; try discriminate; reflexivity.
  - destruct sx, sy; try discriminate.
    + destruct (Z.compare ex ey) eqn:Ee; try discriminate.
      apply Z.compare_eq in Ee. subst ey.
      destruct (Pos.compare_cont Eq mx my) eqn:Em; try discriminate.
      apply Pos.compare_eq in Em. subst my.
      now rewrite Z.compare_refl, Pos.compare_cont_refl.
    + destruct (Z.compare ex ey) eqn:Ee; try discriminate.
      apply Z.compare_eq in Ee. subst ey.
      destruct (Pos.compare_cont Eq mx my) eqn:Em; try discriminate.
      apply Pos.compare_eq in Em. subst my.
      now rewrite Z.compare_refl, Pos.compare_cont_refl.
Qed.

(** Equal numbers are not below and not above one another. *)
Lemma num_eq_not_lt_gt (x y : number) :
  num_eq x y = true -> num_lt x y = false /\ num_gt x y = false.
Proof.
  unfold num_eq, num_lt, num_gt, SFeqb, SFltb. intros H.
  destruct (SFcompare x y) as [[| |] |] eqn:E; try discriminate.
  rewrite (SFcompare_Eq_sym x y E). now split.
Qed.

(** C5.  For a number descriptor and a raw string that is not empty and
    parses to a number, the checks run in the order integer, minimum,
    maximum, and the first one to fail gives the error: NotInteger whatever
    the bounds, BelowMinimum once the integer check passes, AboveMaximum
    once both pass, no error once all three pass.  Both bounds are
    inclusive: a value equal to the minimum passes the minimum check and a
    value equal to the maximum passes the maximum check; strictly below
    and strictly above fail. *)
Theorem parseValue_number_checks
    (config : EnvVarConfig) (name raw : string) :
  type config = "number" ->
  raw <> EmptyString ->
  isNaN (Number raw) = false ->
  let num := Number raw in
  (integer config = Some true -> Number_isInteger num = false ->
   parseValue (Some raw) config name =
   Normal {| value := JNum num;
             error := Some {|
               variable := name;
               message := "Value must be an integer";
               expected := Some "integer";
               received := Some raw |} |})
  /\ (passes_integer config num ->
      forall m, min config = Some m -> num_lt num m = true ->
      parseValue (Some raw) config name =
      Normal {| value := JNum num;
                error := Some {|
                  variable := name;
                  message := "Number is below minimum value ("
                               ++ String_of_number m ++ ")";
                  expected := Some ("number >= " ++ String_of_number m);
                  received := Some (String_of_number num) |} |})
  /\ (passes_integer config num -> passes_min config num ->
      forall m, max config = Some m -> num_gt num m = true ->
      parseValue (Some raw) config name =
      Normal {| value := JNum num;
                error := Some {|
                  variable := name;
                  message := "Number exceeds maximum value ("
                               ++ String_of_number m ++ ")";
                  expected := Some ("number <= " ++ String_of_number m);
                  received := Some (String_of_number num) |} |})
  /\ (passes_integer config num -> passes_min config num ->
      passes_max config num ->
      parseValue (Some raw) config name =
      Normal {| value := JNum num; error := None |})
  /\ (forall m, min config = Some m -> num_eq num m = true ->
      passes_min config num)
  /\ (forall m, max config = Some m -> num_eq num m = true ->
      passes_max config num).
Proof.
  intros Ht Hraw Hnan num.
  rewrite (parseValue_present raw config name Hraw), Ht. simpl.
  unfold parseNumber. cbv zeta. rewrite Hnan. fold num.
  assert (Hint : passes_integer config num ->
                 (truthy (integer config) && negb (Number_isInteger num))%bool
                 = false).
  { unfold passes_integer. intros H.
    destruct (integer config) as [[|] |]; simpl; try reflexivity.
    now rewrite H. }
  assert (Hmin : passes_min config num ->
                 defined_and (min config) (num_lt num) = false).
  { unfold passes_min. intros H.
    destruct (min config) as [m |]; simpl; [now apply H | reflexivity]. }
  assert (Hmax : passes_max config num ->
                 defined_and (max config) (num_gt num) = false).
  { unfold passes_max. intros H.
    destruct (max config) as [m |]; simpl; [now apply H | reflexivity]. }
  repeat split.
  - intros Hi Hn. rewrite Hi, Hn. reflexivity.
  - intros Pi m Hm Hlt. rewrite (Hint Pi), Hm. simpl. now rewrite Hlt.
  - intros Pi Pm m Hm Hgt. rewrite (Hint Pi), (Hmin Pm), Hm. simpl.
    now rewrite Hgt.
  - intros Pi Pm PM. now rewrite (Hint Pi), (Hmin Pm), (Hmax PM).
  - intros m Hm Heq m' Hm'. rewrite Hm in Hm'. injection Hm' as <-.
    exact (proj1 (num_eq_not_lt_gt num m Heq)).
  - intros m Hm Heq m' Hm'. rewrite Hm in Hm'. injection Hm' as <-.
    exact (proj2 (num_eq_not_lt_gt num m Heq)).
Qed.

End ParserFacts.

(** ** More on the value parser *)

Section ParserMore.

Context {host : Host}.

(** X1.  [parseValue] never throws, whatever [new URL] and [JSON.parse]
    do; an error it reports carries the name of the variable it was called
    for and always says what was received. *)
Theorem parseValue_never_throws
    (rawValue : option string) (config : EnvVarConfig) (name : string) :
  exists r,
    parseValue rawValue config name = Normal r
    /\ forall e, error r = Some e ->
                 variable e = name /\ received e <> None.
Proof.
  unfold parseValue, parseString, parseNumber, parseBoolean, parseUrl,
    parseJson, parseEnum, try_catch, bind, ret.
  destruct rawValue as [[| c s] |];
    [| destruct (new_URL (String c s)) as [url | exn];
       destruct (JSON_parse (String c s)) as [parsed | exn'];
       destruct (protocols config) as [allowed |] |];
    split_conditions;
    (eexists; split; [reflexivity |]);
    cbn [error]; intros ? [= <-]; (split; [reflexivity | discriminate]).
Qed.

(** X2.  When a raw value with at least one code unit is supplied,
    [required] and [default] play no part: two descriptors with the same
    type and constraints give the same result.  In particular a supplied
    value that fails its checks is reported, not replaced by the
    default. *)
Theorem parseValue_supplied_ignores_default
    (c1 c2 : EnvVarConfig) (name raw : string) :
  same_constraints c1 c2 ->
  raw <> EmptyString ->
  parseValue (Some raw) c1 name = parseValue (Some raw) c2 name.
Proof.
  unfold same_constraints.
  destruct c1, c2; cbn [type minLength maxLength pattern min max integer
                         protocols values].
  intros (-> & -> & -> & -> & -> & -> & -> & -> & ->) Hraw.
  destruct raw; [now elim Hraw | reflexivity].
Qed.

(** X3.  A supplied raw value that parses without error has a value of
    the descriptor's type and satisfies every constraint of the
    descriptor; a descriptor of unknown type never parses without error. *)
Theorem parseValue_success_sound
    (config : EnvVarConfig) (name raw : string) (r : ParseResult) :
  raw <> EmptyString ->
  parseValue (Some raw) config name = Normal r ->
  error r = None ->
  In (type config) known_types
  /\ (type config = "string" ->
      value r = JStr raw
      /\ passes_minLength config raw
      /\ passes_maxLength config raw
      /\ passes_pattern config raw)
  /\ (type config = "number" ->
      value r = JNum (Number raw)
      /\ isNaN (Number raw) = false
      /\ passes_integer config (Number raw)
      /\ passes_min config (Number raw)
      /\ passes_max config (Number raw))
  /\ (type config = "boolean" ->
      value r = JBool true \/ value r = JBool false)
  /\ (type config = "url" ->
      value r = JStr raw
      /\ exists url,
           new_URL raw = Normal url
           /\ forall allowed, protocols config = Some allowed ->
                              In (slice_0_m1 (protocol url)) allowed)
  /\ (type config = "json" -> JSON_parse raw = Normal (value r))
  /\ (type config = "enum" ->
      value r = JStr raw /\ In raw (values config)).
Proof.
  intros Hraw Hparse Herr.
  rewrite (parseValue_present raw config name Hraw) in Hparse.
  split.
  { unfold known_types.
    repeat match type of Hparse with
           | (if String.eqb ?a ?b then _ else _) = _ =>
               let E := fresh "E" in
               destruct (String.eqb a b) eqn:E;
               [apply String.eqb_eq in E; rewrite E; simpl; tauto |]
           end.
    injection Hparse as <-. discriminate. }
  split.
  { intros Ht. rewrite Ht in Hparse. simpl in Hparse.
    unfold passes_minLength, passes_maxLength, passes_pattern.
    unfold parseString in Hparse. cbv zeta in Hparse.
    destruct (defined_and (minLength config) _) eqn:Emin;
      [injection Hparse as <-; discriminate |].
    destruct (defined_and (maxLength config) _) eqn:Emax;
      [injection Hparse as <-; discriminate |].
    destruct (defined_and (pattern config) _) eqn:Epat;
      [injection Hparse as <-; discriminate |].
    injection Hparse as <-.
    split; [reflexivity |]. split; [| split].
    - intros m Hm. rewrite Hm in Emin. exact Emin.
    - intros m Hm. rewrite Hm in Emax. exact Emax.
    - intros re Hre. rewrite Hre in Epat. simpl in Epat.
      now apply negb_false_iff in Epat. }
  split.
  { intros Ht. rewrite Ht in Hparse. simpl in Hparse.
    unfold passes_integer, passes_min, passes_max.
    unfold parseNumber in Hparse. cbv zeta in Hparse.
    destruct (isNaN (Number raw)) eqn:Enan;
      [injection Hparse as <-; discriminate |].
    destruct (truthy (integer config) && _)%bool eqn:Eint;
      [injection Hparse as <-; discriminate |].
    destruct (defined_and (min config) _) eqn:Emin;
      [injection Hparse as <-; discriminate |].
    destruct (defined_and (max config) _) eqn:Emax;
      [injection Hparse as <-; discriminate |].
    injection Hparse as <-.
    split; [reflexivity |]. split; [reflexivity |]. split; [| split].
    - intros Hi. rewrite Hi in Eint. simpl in Eint.
      now apply negb_false_iff in Eint.
    - intros m Hm. rewrite Hm in Emin. exact Emin.
    - intros m Hm. rewrite Hm in Emax. exact Emax. }
  split.
  { intros Ht. rewrite Ht in Hparse. simpl in Hparse.
    unfold parseBoolean in Hparse.
    repeat match type of Hparse with
           | (if ?b then _ else _) = _ => destruct b
           end;
      injection Hparse as <-; simpl; auto. }
  split.
  { intros Ht. rewrite Ht in Hparse. simpl in Hparse.
    unfold parseUrl, try_catch, bind in Hparse.
    destruct (new_URL raw) as [url | exn];
      [| injection Hparse as <-; discriminate].
    destruct (protocols config) as [allowed |] eqn:Ea.
    - destruct (includes allowed (slice_0_m1 (protocol url))) eqn:Hin;
        simpl in Hparse; injection Hparse as <-; [| discriminate].
      split; [reflexivity |]. exists url. split; [reflexivity |].
      intros allowed' [= <-]. now apply includes_In.
    - injection Hparse as <-.
      split; [reflexivity |]. exists url. split; [reflexivity |].
      intros allowed' [=]. }
  split.
  { intros Ht. rewrite Ht in Hparse. simpl in Hparse.
    unfold parseJson, try_catch, bind in Hparse.
    destruct (JSON_parse raw) as [parsed | exn];
      injection Hparse as <-; [reflexivity | discriminate]. }
  intros Ht. rewrite Ht in Hparse. simpl in Hparse.
  unfold parseEnum in Hparse.
  destruct (includes (values config) raw) eqn:Hin; simpl in Hparse;
    injection Hparse as <-; [| discriminate].
  split; [reflexivity |]. now apply includes_In.
Qed.

End ParserMore.

Section ParserErrors.

Context {host : Host}.

(** X4.  For a string descriptor and a supplied raw value, the value is
    the raw string itself, and there is no error exactly when the length
    is within [minLength] and [maxLength] (each bound inclusive, each only
    if set) and the pattern, if there is one, matches. *)
Theorem parseValue_string_accepts_iff
    (config : EnvVarConfig) (name raw : string) :
  type config = "string" ->
  raw <> EmptyString ->
  exists r,
    parseValue (Some raw) config name = Normal r
    /\ value r = JStr raw
    /\ (error r = None <->
        passes_minLength config raw
        /\ passes_maxLength config raw
        /\ passes_pattern config raw).
Proof.
  intros Ht Hraw.
  rewrite (parseValue_present raw config name Hraw), Ht. simpl.
  unfold passes_minLength, passes_maxLength, passes_pattern, parseString.
  cbv zeta.
  destruct (minLength config) as [lo |];
    destruct (maxLength config) as [hi |];
    destruct (pattern config) as [re |];
    simpl; split_conditions;
    repeat match goal with
           | H : negb _ = true |- _ => apply negb_true_iff in H
           | H : negb _ = false |- _ => apply negb_false_iff in H
           end;
    (eexists; split; [reflexivity |]; split; [reflexivity |]);
    cbn [error]; split;
    try discriminate;
    try (intros _; repeat split; intros ? [=]; subst; assumption);
    try (intros (H1 & H2 & H3);
         try (specialize (H1 _ eq_refl));
         try (specialize (H2 _ eq_refl));
         try (specialize (H3 _ eq_refl));
         congruence).
Qed.

(** X5.  For an enum descriptor and a supplied raw value, the value is the
    raw string, and there is no error exactly when the raw string is one
    of [values], compared as it is (case matters); the error lists the
    allowed values joined by ", ". *)
Theorem parseValue_enum_accepts_iff
    (config : EnvVarConfig) (name raw : string) :
  type config = "enum" ->
  raw <> EmptyString ->
  exists r,
    parseValue (Some raw) config name = Normal r
    /\ value r = JStr raw
    /\ (error r = None <-> In raw (values config))
    /\ (~ In raw (values config) ->
        error r = Some {|
          variable := name;
          message := "Value must be one of: " ++ join (values config) ", ";
          expected := Some (join (values config) ", ");
          received := Some raw |}).
Proof.
  intros Ht Hraw.
  rewrite (parseValue_present raw config name Hraw), Ht. simpl.
  unfold parseEnum.
  destruct (includes (values config) raw) eqn:Hin; simpl;
    (eexists; split; [reflexivity |]; split; [reflexivity |]); cbn [error].
  - apply includes_In in Hin. split; [tauto |]. intros H. now elim H.
  - apply includes_not_In in Hin. split; [| reflexivity].
    split; [discriminate | intros H; now elim Hin].
Qed.

Lemma isNaN_true (x : number) : isNaN x = true -> x = NaN.
Proof. destruct x; simpl; intros H; try discriminate. reflexivity. Qed.

(** X6.  For a number descriptor, a supplied raw value that [Number] turns
    into NaN gives the error "Invalid number format" with the value NaN,
    whatever [integer], [min] and [max] are: the format check comes before
    the three constraint checks. *)
Theorem parseValue_number_invalid_format
    (config : EnvVarConfig) (name raw : string) :
  type config = "number" ->
  raw <> EmptyString ->
  isNaN (Number raw) = true ->
  parseValue (Some raw) config name =
  Normal {| value := JNum NaN;
            error := Some {|
              variable := name;
              message := "Invalid number format";
              expected := Some "number";
              received := Some raw |} |}.
Proof.
  intros Ht Hraw Hnan.
  rewrite (parseValue_present raw config name Hraw), Ht. simpl.
  unfold parseNumber. cbv zeta. rewrite Hnan.
  now rewrite (isNaN_true _ Hnan).
Qed.

(** X7.  For a url descriptor, a supplied raw value on which [new URL]
    throws gives the error "Invalid URL format" with the raw string as
    value, whatever was thrown and whatever [protocols] is: the exception
    does not leave [parseValue], and the allow-list is not consulted. *)
Theorem parseValue_url_invalid_format
    (config : EnvVarConfig) (name raw : string) (exn : JsError) :
  type config = "url" ->
  raw <> EmptyString ->
  new_URL raw = Throw exn ->
  parseValue (Some raw) config name =
  Normal {| value := JStr raw;
            error := Some {|
              variable := name;
              message := "Invalid URL format";
              expected := Some "valid URL";
              received := Some raw |} |}.
Proof.
  intros Ht Hraw Hurl.
  rewrite (parseValue_present raw config name Hraw), Ht. simpl.
  unfold parseUrl. now rewrite Hurl.
Qed.

(** X8.  For a json descriptor and a supplied raw value, the value is
    exactly what [JSON.parse] returns, with no error and no further check;
    when [JSON.parse] throws, the error is "Invalid JSON format" and there
    is no value. *)
Theorem parseValue_json
    (config : EnvVarConfig) (name raw : string) :
  type config = "json" ->
  raw <> EmptyString ->
  (forall parsed, JSON_parse raw = Normal parsed ->
     parseValue (Some raw) config name =
     Normal {| value := parsed; error := None |})
  /\ (forall exn, JSON_parse raw = Throw exn ->
        parseValue (Some raw) config name =
        Normal {| value := JUndefined;
                  error := Some {|
                    variable := name;
                    message := "Invalid JSON format";
                    expected := Some "valid JSON string";
                    received := Some raw |} |}).
Proof.
  intros Ht Hraw.
  rewrite (parseValue_present raw config name Hraw), Ht. simpl.
  unfold parseJson.
  split; intros x Hx; now rewrite Hx.
Qed.

(** X9.  A descriptor whose type is none of the six known ones fails on
    every supplied raw value, default or not, with the error "Unknown
    type: <type>", which has no [expected] part, and without a value. *)
Theorem parseValue_unknown_type
    (config : EnvVarConfig) (name raw : string) :
  ~ In (type config) known_types ->
  raw <> EmptyString ->
  parseValue (Some raw) config name =
  Normal {| value := JUndefined;
            error := Some {|
              variable := name;
              message := "Unknown type: " ++ type config;
              expected := None;
              received := Some raw |} |}.
Proof.
  intros Hunknown Hraw.
  rewrite (parseValue_present raw config name Hraw).
  assert (Hne : forall t, In t known_types ->
                          String.eqb (type config) t = false).
  { intros t Ht. apply String.eqb_neq. intros E. apply Hunknown.
    now rewrite E. }
  rewrite !Hne by (unfold known_types; simpl; tauto).
  reflexivity.
Qed.

End ParserErrors.

(** ** The parser on what [env[key]] gives *)

Section RawFacts.

Context {host : Host}.

Lemma parseValue_foreign_variable f config name r e :
  parseValue_foreign f config name = Normal r ->
  any_error r = Some e ->
  variable e = name.
Proof.
  unfold parseValue_foreign, parseString_foreign, parseNumber_foreign,
    parseBoolean_foreign, parseUrl_foreign, parseJson_foreign,
    parseEnum_foreign, try_catch, bind, ret.
  destruct (new_URL (foreign_text f)) as [url | exn];
    destruct (JSON_parse (foreign_text f)) as [parsed | exn'];
    destruct (protocols config) as [allowed |];
    split_conditions;
    intros H; try discriminate; injection H as <-;
    cbn [any_error]; intros [= <-]; reflexivity.
Qed.

(** On a raw value of the declared type, [string | undefined], the
    result is that of the parser of [parser.ts]. *)
Lemma parseValue_raw_declared (rawValue : option string) config name :
  parseValue_raw (raw_of rawValue) config name
  = (r <- parseValue rawValue config name ;; ret (as_any r)).
Proof. destruct rawValue; reflexivity. Qed.

Lemma parseValue_raw_typed (rawValue : option string) config name r :
  parseValue_raw (raw_of rawValue) config name = Normal r <->
  exists pr, parseValue rawValue config name = Normal pr /\ r = as_any pr.
Proof.
  rewrite parseValue_raw_declared.
  destruct (parseValue rawValue config name) as [pr | exn]; cbn [bind ret].
  - split.
    + intros [= <-]. now exists pr.
    + intros (pr' & [= <-] & ->). reflexivity.
  - split; [discriminate |]. intros (pr' & H & _). discriminate.
Qed.

(** An error names the variable, whatever the raw value is. *)
Lemma parseValue_raw_variable rawValue config name r e :
  parseValue_raw rawValue config name = Normal r ->
  any_error r = Some e ->
  variable e = name.
Proof.
  destruct rawValue as [| s | f].
  - intros Hr. apply (parseValue_raw_typed None) in Hr.
    destruct Hr as (pr & Hpr & ->). cbn [as_any any_error].
    destruct (parseValue_returns None config name) as (r' & Hr' & H).
    rewrite Hr' in Hpr. injection Hpr as <-. apply H.
  - intros Hr. apply (parseValue_raw_typed (Some s)) in Hr.
    destruct Hr as (pr & Hpr & ->). cbn [as_any any_error].
    destruct (parseValue_returns (Some s) config name) as (r' & Hr' & H).
    rewrite Hr' in Hpr. injection Hpr as <-. apply H.
  - apply parseValue_foreign_variable.
Qed.

Lemma parseValue_raw_returns rawValue config name :
  (forall f, rawValue <> RawForeign f) ->
  returns (parseValue_raw rawValue config name).
Proof.
  intros Hdeclared. destruct rawValue as [| s | f]; cbn [parseValue_raw].
  - destruct (parseValue_returns None config name) as (r & -> & _).
    now exists (as_any r).
  - destruct (parseValue_returns (Some s) config name) as (r & -> & _).
    now exists (as_any r).
  - now elim (Hdeclared f).
Qed.

(** The only exception the parser lets through is the TypeError of
    [toLowerCase] on a value that is not a string, for a boolean
    descriptor. *)
Lemma parseValue_raw_throws rawValue config name exn :
  parseValue_raw rawValue config name = Throw exn ->
  type config = "boolean"
  /\ (exists f, rawValue = RawForeign f)
  /\ exn = mkJsError "TypeError" "value.toLowerCase is not a function".
Proof.
  destruct rawValue as [| s | f]; cbn [parseValue_raw].
  - destruct (parseValue_returns None config name) as (r & -> & _).
    discriminate.
  - destruct (parseValue_returns (Some s) config name) as (r & -> & _).
    discriminate.
  - unfold parseValue_foreign, parseString_foreign, parseNumber_foreign,
      parseBoolean_foreign, parseUrl_foreign, parseJson_foreign,
      parseEnum_foreign, try_catch, bind, ret.
    destruct (String.eqb (type config) "string") eqn:E1;
      [split_conditions; discriminate |].
    destruct (String.eqb (type config) "number") eqn:E2;
      [split_conditions; discriminate |].
    destruct (String.eqb (type config) "boolean") eqn:E3.
    + apply String.eqb_eq in E3. intros [= <-].
      split; [exact E3 |]. split; [now exists f | reflexivity].
    + destruct (new_URL (foreign_text f)) as [url | exn1];
        destruct (JSON_parse (foreign_text f)) as [parsed | exn2];
        destruct (protocols config) as [allowed |];
        split_conditions; discriminate.
Qed.

(** A boolean descriptor on a value that is not a string: the call of
    [toLowerCase] throws. *)
Lemma parseValue_raw_boolean_throws f config name :
  type config = "boolean" ->
  parseValue_raw (RawForeign f) config name
  = Throw (mkJsError "TypeError" "value.toLowerCase is not a function").
Proof.
  intros Ht. cbn [parseValue_raw]. unfold parseValue_foreign.
  rewrite Ht. reflexivity.
Qed.


End RawFacts.

(** ** The schema validator *)

Section ValidatorFacts.

Context {host : Host} {realm : Realm}.

Lemma entry_error_Some env key config e :
  entry_error env (key, config) = Some e <->
  exists r, parseValue_raw (env_read env key) config key = Normal r
            /\ any_error r = Some e.
Proof.
  unfold entry_error, parse_entry. cbn [fst snd].
  destruct (parseValue_raw (env_read env key) config key) as [r | exn].
  - split.
    + intros H. now exists r.
    + intros (r' & [= <-] & H). exact H.
  - split; [discriminate |]. intros (r' & H & _). discriminate.
Qed.

Lemma entry_error_variable env key config e :
  entry_error env (key, config) = Some e -> variable e = key.
Proof.
  intros H. apply entry_error_Some in H. destruct H as (r & Hr & He).
  eapply parseValue_raw_variable; eauto.
Qed.

Lemma entry_errors_cons env entry rest :
  entry_errors env (entry :: rest) =
  (match entry_error env entry with
   | Some e => [e]
   | None => []
   end ++ entry_errors env rest)%list.
Proof. reflexivity. Qed.

Lemma entry_errors_In env entries e :
  In e (entry_errors env entries) <->
  exists entry, In entry entries /\ entry_error env entry = Some e.
Proof.
  unfold entry_errors. rewrite in_flat_map. split.
  - intros (entry & Hin & He). exists entry. split; [exact Hin |].
    destruct (entry_error env entry); simpl in He; [| contradiction].
    destruct He as [-> | []]. reflexivity.
  - intros (entry & Hin & He). exists entry. split; [exact Hin |].
    rewrite He. now left.
Qed.

Lemma entry_errors_variable env entries e :
  In e (entry_errors env entries) -> In (variable e) (map fst entries).
Proof.
  intros H. apply entry_errors_In in H.
  destruct H as ([key config] & Hin & He).
  rewrite (entry_error_variable _ _ _ _ He).
  apply (in_map fst) in Hin. exact Hin.
Qed.

(** The loop of [validateEnv] stops at the first entry whose parse
    throws; otherwise it goes through all the entries, whatever each
    returns, and appends their errors in order. *)
Lemma validate_loop_spec env entries errs :
  validate_loop env entries errs =
  match first_throw env entries with
  | Some exn => Throw exn
  | None => Normal (errs ++ entry_errors env entries)%list
  end.
Proof.
  revert errs.
  induction entries as [| [key config] rest IH]; intros errs.
  - simpl. now rewrite app_nil_r.
  - rewrite entry_errors_cons. unfold entry_error.
    cbn [validate_loop first_throw]. unfold parse_entry. cbn [fst snd].
    destruct (parseValue_raw (env_read env key) config key) as [r | exn];
      cbn [bind]; [| reflexivity].
    destruct (any_error r) as [e |]; rewrite IH;
      destruct (first_throw env rest); try reflexivity.
    unfold push. now rewrite <- app_assoc.
Qed.

(** The loop of [parseEnv] makes the same parses. *)
Lemma parse_loop_spec env entries result errs :
  parse_loop env entries result errs =
  match first_throw env entries with
  | Some exn => Throw exn
  | None => Normal (collect env entries result,
                    (errs ++ entry_errors env entries)%list)
  end.
Proof.
  revert result errs.
  induction entries as [| [key config] rest IH]; intros result errs.
  - simpl. now rewrite app_nil_r.
  - rewrite entry_errors_cons. unfold entry_error.
    cbn [parse_loop first_throw collect]. unfold parse_entry. cbn [fst snd].
    destruct (parseValue_raw (env_read env key) config key) as [r | exn];
      cbn [bind]; [| reflexivity].
    destruct (any_error r) as [e |]; rewrite IH;
      destruct (first_throw env rest); try reflexivity.
    unfold push. now rewrite <- app_assoc.
Qed.

Lemma validateEnv_spec env schema :
  validateEnv env schema =
  match first_throw env (Object_entries schema) with
  | Some exn => Throw exn
  | None =>
      Normal {| valid :=
                  Nat.eqb
                    (List.length (entry_errors env (Object_entries schema)))
                    0;
                errors := entry_errors env (Object_entries schema);
                warnings :=
                  warning_loop env (Object_keys schema) (Object_keys env)
                    [] |}
  end.
Proof.
  unfold validateEnv. rewrite validate_loop_spec.
  destruct (first_throw env (Object_entries schema)); reflexivity.
Qed.

Lemma parseEnv_spec env schema :
  parseEnv env schema =
  match first_throw env (Object_entries schema) with
  | Some exn => Throw exn
  | None =>
      if Nat.ltb 0 (List.length (entry_errors env (Object_entries schema)))
      then Throw (new_Error
                    ("Environment validation failed:" ++ newline
                       ++ formatValidationErrors
                            (entry_errors env (Object_entries schema))))
      else Normal (collect env (Object_entries schema) empty_object)
  end.
Proof.
  unfold parseEnv. rewrite parse_loop_spec.
  destruct (first_throw env (Object_entries schema)); reflexivity.
Qed.

Lemma first_throw_None env entries :
  first_throw env entries = None <->
  forall entry, In entry entries -> returns (parse_entry env entry).
Proof.
  induction entries as [| entry rest IH]; simpl.
  - split; [intros _ e [] | reflexivity].
  - destruct (parse_entry env entry) as [r | exn] eqn:E.
    + rewrite IH. split.
      * intros H e [<- | He]; [rewrite E; now exists r | now apply H].
      * intros H e He. apply H. now right.
    + split; [discriminate |]. intros H.
      destruct (H entry (or_introl eq_refl)) as (r & Hr).
      rewrite E in Hr. discriminate.
Qed.

Lemma first_throw_Some env entries exn :
  first_throw env entries = Some exn ->
  exists key config,
    In (key, config) entries
    /\ parseValue_raw (env_read env key) config key = Throw exn.
Proof.
  induction entries as [| [key config] rest IH]; simpl; [discriminate |].
  unfold parse_entry at 1. cbn [fst snd].
  destruct (parseValue_raw (env_read env key) config key) as [r | exn']
    eqn:E.
  - intros H. destruct (IH H) as (k & c & Hin & Hk).
    exists k, c. split; [now right | exact Hk].
  - intros [= <-]. exists key, config. split; [now left | exact E].
Qed.

(** When every schema key reads as declared, no parse throws. *)
Lemma reads_declared_no_throw env (schema : EnvSchema) :
  reads_declared env schema ->
  first_throw env (Object_entries schema) = None.
Proof.
  intros Hdeclared. apply first_throw_None. intros [key config] Hin.
  unfold parse_entry. cbn [fst snd].
  apply parseValue_raw_returns. intros f. apply Hdeclared.
  apply (proj1 (Object_entries_In schema (key, config))) in Hin.
  apply (in_map fst) in Hin. exact Hin.
Qed.

Lemma validateEnv_Normal env schema r :
  validateEnv env schema = Normal r ->
  first_throw env (Object_entries schema) = None
  /\ r = {| valid :=
              Nat.eqb
                (List.length (entry_errors env (Object_entries schema))) 0;
            errors := entry_errors env (Object_entries schema);
            warnings :=
              warning_loop env (Object_keys schema) (Object_keys env) [] |}.
Proof.
  rewrite validateEnv_spec.
  destruct (first_throw env (Object_entries schema)); [discriminate |].
  intros [= <-]. now split.
Qed.

Lemma prefix_app (p s : string) : String.prefix p (p ++ s) = true.
Proof.
  induction p as [| c p IH]; simpl; [destruct s; reflexivity |].
  destruct (ascii_dec c c) as [_ | Hne]; [exact IH | now elim Hne].
Qed.

Lemma entry_errors_schema env (schema : EnvSchema) :
  entry_errors env (Object_entries schema) <> [] <->
  some_key_fails env schema.
Proof.
  unfold some_key_fails. split.
  - intros Hne.
    destruct (entry_errors env (Object_entries schema)) as [| e rest] eqn:E;
      [now elim Hne |].
    assert (Hin : In e (entry_errors env (Object_entries schema)))
      by (rewrite E; now left).
    apply entry_errors_In in Hin. destruct Hin as ([key config] & Hin & He).
    apply (proj1 (Object_entries_In schema (key, config))) in Hin.
    apply entry_error_Some in He. destruct He as (r & Hr & He).
    now exists key, config, r, e.
  - intros (key & config & r & e & Hin & Hr & He) Hnil.
    assert (H : In e (entry_errors env (Object_entries schema))).
    { apply entry_errors_In. exists (key, config). split.
      - now apply Object_entries_In.
      - apply entry_error_Some. now exists r. }
    rewrite Hnil in H. exact H.
Qed.

Lemma own_key_get {V : Type} (o : JsObject V) (k : string) :
  In k (map fst o) -> exists v, get_own o k = Some v.
Proof.
  induction o as [| [k' v'] rest IH]; simpl; [contradiction |].
  intros [-> | Hin].
  - rewrite String.eqb_refl. now exists v'.
  - destruct (String.eqb k k'); [now exists v' | now apply IH].
Qed.

Lemma reads_defined_own env key :
  In key (map fst env) ->
  reads_defined env key = true <-> exists s, get_own env key = Some (Some s).
Proof.
  intros Hin. destruct (own_key_get env key Hin) as (v & Hv).
  unfold reads_defined, env_read. rewrite Hv.
  destruct v as [s |]; simpl; split.
  - intros _. now exists s.
  - reflexivity.
  - discriminate.
  - intros (s & [=]).
Qed.

Lemma warning_loop_keeps env schemaKeys keys ws w :
  In w ws -> In w (warning_loop env schemaKeys keys ws).
Proof.
  revert ws. induction keys as [| key rest IH]; intros ws Hin; simpl;
    [exact Hin |].
  destruct (negb (includes schemaKeys key) && reads_defined env key)%bool;
    apply IH; [| exact Hin].
  unfold push. apply in_or_app. now left.
Qed.

Lemma warning_loop_warns env schemaKeys keys ws key :
  In key keys ->
  includes schemaKeys key = false ->
  reads_defined env key = true ->
  In (not_in_schema_warning key) (warning_loop env schemaKeys keys ws).
Proof.
  intros Hin Hno Hget. revert ws.
  induction keys as [| k rest IH]; intros ws; simpl; [contradiction |].
  destruct Hin as [-> | Hin].
  - rewrite Hno, Hget. simpl.
    apply warning_loop_keeps. unfold push. apply in_or_app. right. now left.
  - destruct (negb (includes schemaKeys k) && reads_defined env k)%bool;
      now apply IH.
Qed.

Lemma warning_loop_only env schemaKeys keys ws w :
  In w (warning_loop env schemaKeys keys ws) ->
  In w ws
  \/ exists key, w = not_in_schema_warning key
                 /\ In key keys
                 /\ includes schemaKeys key = false
                 /\ reads_defined env key = true.
Proof.
  revert ws. induction keys as [| k rest IH]; intros ws; simpl; [now left |].
  destruct (includes schemaKeys k) eqn:Hk; simpl.
  - intros H. destruct (IH _ H) as [Hw | (key & Hkey)]; [now left |].
    right. exists key. tauto.
  - destruct (reads_defined env k) eqn:Hget.
    + intros H. destruct (IH _ H) as [Hw | (key & Hkey)].
      * unfold push in Hw. apply in_app_or in Hw.
        destruct Hw as [Hw | [<- | []]]; [now left |].
        right. exists k. repeat split; auto.
      * right. exists key. tauto.
    + intros H. destruct (IH _ H) as [Hw | (key & Hkey)]; [now left |].
      right. exists key. tauto.
Qed.

Lemma parse_entry_ext env env' entry :
  env_read env' (fst entry) = env_read env (fst entry) ->
  parse_entry env' entry = parse_entry env entry.
Proof. unfold parse_entry. now intros ->. Qed.

Lemma first_throw_ext env env' entries :
  (forall entry, In entry entries ->
                 parse_entry env' entry = parse_entry env entry) ->
  first_throw env' entries = first_throw env entries.
Proof.
  induction entries as [| entry rest IH]; intros H; [reflexivity |].
  simpl. rewrite (H entry) by now left.
  rewrite IH; [reflexivity |]. intros e He. apply H. now right.
Qed.

Lemma entry_errors_ext env env' entries :
  (forall entry, In entry entries ->
                 parse_entry env' entry = parse_entry env entry) ->
  entry_errors env' entries = entry_errors env entries.
Proof.
  induction entries as [| entry rest IH]; intros H; [reflexivity |].
  rewrite !entry_errors_cons.
  rewrite IH by (intros e He; apply H; now right).
  unfold entry_error. rewrite (H entry) by now left. reflexivity.
Qed.

Lemma collect_ext env env' entries result :
  (forall entry, In entry entries ->
                 parse_entry env' entry = parse_entry env entry) ->
  collect env' entries result = collect env entries result.
Proof.
  revert result.
  induction entries as [| entry rest IH]; intros result H; [reflexivity |].
  simpl. rewrite (H entry) by now left.
  destruct (parse_entry env entry) as [r | exn]; [| reflexivity].
  destruct (any_error r); apply IH; intros e He; apply H; now right.
Qed.

Lemma schema_entry_key (schema : EnvSchema) key config :
  In (key, config) (Object_entries schema) -> In key (map fst schema).
Proof.
  intros Hin.
  apply (proj1 (Object_entries_In schema (key, config))) in Hin.
  apply (in_map fst) in Hin. exact Hin.
Qed.

End ValidatorFacts.

(** ** What [validateEnv] and [parseEnv] guarantee *)

Section ValidatorClaims.

Context {host : Host} {realm : Realm}.

(** C3.  In every result that [validateEnv] returns, [valid] is [true]
    exactly when [errors] is empty.  Warnings play no part in it: a
    variable of the environment with a defined value that is not a schema
    key gives the warning 'Environment variable "<key>" is not defined in
    schema' and no error, every warning is of that form, and an
    environment that reads the same on the schema keys gives the same
    errors and the same validity, whatever else it holds. *)
Theorem validateEnv_valid_iff_no_errors
    (env : JsObject (option string)) (schema : EnvSchema)
    (r : ValidationResult) :
  validateEnv env schema = Normal r ->
  (valid r = true <-> errors r = [])
  /\ (forall key s,
        get_own env key = Some (Some s) -> ~ In key (map fst schema) ->
        In ("Environment variable " ++ dquote ++ key ++ dquote
              ++ " is not defined in schema") (warnings r)
        /\ forall e, In e (errors r) -> variable e <> key)
  /\ (forall w,
        In w (warnings r) ->
        exists key s,
          w = "Environment variable " ++ dquote ++ key ++ dquote
                ++ " is not defined in schema"
          /\ ~ In key (map fst schema)
          /\ get_own env key = Some (Some s))
  /\ (forall env',
        (forall key, In key (map fst schema) ->
                     env_read env' key = env_read env key) ->
        exists r',
          validateEnv env' schema = Normal r'
          /\ errors r' = errors r /\ valid r' = valid r).
Proof.
  intros Hr. apply validateEnv_Normal in Hr. destruct Hr as (Hnone & ->).
  cbn [valid errors warnings].
  split; [| split; [| split]].
  - destruct (entry_errors env (Object_entries schema)); simpl; split;
      intros H; try reflexivity; discriminate.
  - intros key s Hget Hnot.
    assert (Hkey : In key (map fst env)).
    { apply get_own_In in Hget. apply (in_map fst) in Hget. exact Hget. }
    split.
    + apply (warning_loop_warns env _ _ [] key).
      * apply Object_keys_In. exact Hkey.
      * apply includes_not_In. intros H. apply Hnot.
        now apply Object_keys_In.
      * apply reads_defined_own; [exact Hkey | now exists s].
    + intros e He Heq. apply Hnot. rewrite <- Heq.
      apply entry_errors_variable in He. now apply Object_keys_In.
  - intros w Hw. apply warning_loop_only in Hw.
    destruct Hw as [[] | (key & -> & Hkey & Hno & Hdef)].
    apply (proj1 (Object_keys_In env key)) in Hkey.
    apply (reads_defined_own env key Hkey) in Hdef.
    destruct Hdef as (s & Hs).
    exists key, s. split; [reflexivity |]. split; [| exact Hs].
    apply includes_not_In in Hno. intros H. apply Hno.
    now apply Object_keys_In.
  - intros env' Hagree.
    assert (Hsame : forall entry,
               In entry (Object_entries schema) ->
               parse_entry env' entry = parse_entry env entry).
    { intros [key config] Hin. apply parse_entry_ext. cbn [fst].
      apply Hagree. eapply schema_entry_key; eauto. }
    rewrite validateEnv_spec, (first_throw_ext env env' _ Hsame), Hnone.
    eexists. split; [reflexivity |]. cbn [valid errors].
    rewrite (entry_errors_ext env env' _ Hsame). now split.
Qed.








Lemma parseEnv_Normal env schema result :
  parseEnv env schema = Normal result ->
  first_throw env (Object_entries schema) = None
  /\ entry_errors env (Object_entries schema) = []
  /\ result = collect env (Object_entries schema) empty_object.
Proof.
  rewrite parseEnv_spec.
  destruct (first_throw env (Object_entries schema)); [discriminate |].
  destruct (entry_errors env (Object_entries schema)) as [| e0 rest];
    unfold Nat.ltb; cbn [List.length Nat.leb]; [| discriminate].
  intros [= <-]. auto.
Qed.

Lemma parseEnv_Throw env schema err :
  parseEnv env schema = Throw err ->
  first_throw env (Object_entries schema) = Some err
  \/ first_throw env (Object_entries schema) = None
     /\ entry_errors env (Object_entries schema) <> []
     /\ err = new_Error
                ("Environment validation failed:" ++ newline
                   ++ formatValidationErrors
                        (entry_errors env (Object_entries schema))).
Proof.
  rewrite parseEnv_spec.
  destruct (first_throw env (Object_entries schema)) as [exn |].
  - intros [= <-]. now left.
  - destruct (entry_errors env (Object_entries schema)) as [| e0 rest];
      unfold Nat.ltb; cbn [List.length Nat.leb]; [discriminate |].
    intros [= <-]. right. split; [reflexivity |]. split; [discriminate |].
    reflexivity.
Qed.

(** An entry that parses without error, when no entry fails. *)
Lemma entry_errors_nil_In env entries key config :
  first_throw env entries = None ->
  entry_errors env entries = [] ->
  In (key, config) entries ->
  exists r, parseValue_raw (env_read env key) config key = Normal r
            /\ any_error r = None.
Proof.
  intros Hnone Hnil Hin.
  destruct (proj1 (first_throw_None env entries) Hnone (key, config) Hin)
    as (r & Hr).
  unfold parse_entry in Hr. cbn [fst snd] in Hr.
  exists r. split; [exact Hr |].
  destruct (any_error r) as [e |] eqn:He; [| reflexivity].
  assert (H : In e (entry_errors env entries)).
  { apply entry_errors_In. exists (key, config). split; [exact Hin |].
    apply entry_error_Some. now exists r. }
  rewrite Hnil in H. contradiction.
Qed.

Lemma first_throw_tail env entry rest :
  first_throw env (entry :: rest) = None -> first_throw env rest = None.
Proof.
  simpl. destruct (parse_entry env entry); [auto | discriminate].
Qed.

Lemma entry_errors_tail env entry rest :
  entry_errors env (entry :: rest) = [] -> entry_errors env rest = [].
Proof.
  rewrite entry_errors_cons. intros H. now apply app_eq_nil in H.
Qed.

(** An assignment leaves the other names as they are. *)
Lemma assign_other result key key' v :
  key' <> key ->
  get_own (own (assign result key v)) key' = get_own (own result) key'.
Proof.
  intros Hne. unfold assign.
  destruct (String.eqb key "__proto__").
  - destruct (is_object_or_null v); reflexivity.
  - cbn [own]. now apply get_own_set_own_other.
Qed.

(** An assignment to a name other than [__proto__] creates or updates
    the own property. *)
Lemma assign_same result key v :
  key <> "__proto__" ->
  get_own (own (assign result key v)) key = Some v.
Proof.
  intros Hne. unfold assign. apply String.eqb_neq in Hne. rewrite Hne.
  cbn [own]. apply get_own_set_own_same.
Qed.

(** An assignment never creates an own property [__proto__]. *)
Lemma assign_proto result key v :
  get_own (own (assign result key v)) "__proto__"
  = get_own (own result) "__proto__".
Proof.
  unfold assign. destruct (String.eqb key "__proto__") eqn:E.
  - destruct (is_object_or_null v); reflexivity.
  - cbn [own]. apply get_own_set_own_other.
    intros H. rewrite <- H, String.eqb_refl in E. discriminate.
Qed.

(** A name that is not among the entries keeps what it had. *)
Lemma collect_frame env entries result key :
  ~ In key (map fst entries) ->
  get_own (own (collect env entries result)) key = get_own (own result) key.
Proof.
  revert result.
  induction entries as [| [k c] rest IH]; intros result Hnot;
    [reflexivity |].
  cbn [collect]. cbn [map fst] in Hnot.
  assert (Hk : key <> k) by (intros ->; apply Hnot; now left).
  assert (Hrest : ~ In key (map fst rest))
    by (intros H; apply Hnot; now right).
  destruct (parse_entry env (k, c)) as [r | exn]; [| reflexivity].
  destruct (any_error r); rewrite (IH _ Hrest); [reflexivity |].
  now apply assign_other.
Qed.

Lemma collect_proto env entries result :
  get_own (own (collect env entries result)) "__proto__"
  = get_own (own result) "__proto__".
Proof.
  revert result.
  induction entries as [| [k c] rest IH]; intros result; [reflexivity |].
  cbn [collect].
  destruct (parse_entry env (k, c)) as [r | exn]; [| reflexivity].
  destruct (any_error r); rewrite IH; [reflexivity |].
  apply assign_proto.
Qed.

(** A name among the entries, other than [__proto__], whose parse gives
    no error holds the parsed value. *)
Lemma collect_assigns env entries result key config r :
  NoDup (map fst entries) ->
  first_throw env entries = None ->
  In (key, config) entries ->
  key <> "__proto__" ->
  parseValue_raw (env_read env key) config key = Normal r ->
  any_error r = None ->
  get_own (own (collect env entries result)) key = Some (any_value r).
Proof.
  revert result.
  induction entries as [| [k c] rest IH];
    intros result Hnd Hnone Hin Hkey Hr He; [contradiction |].
  cbn [map fst] in Hnd. inversion Hnd as [| ? ? Hnot Hrest]; subst.
  pose proof (first_throw_tail _ _ _ Hnone) as Hnone'.
  cbn [collect]. destruct Hin as [[= -> ->] | Hin].
  - unfold parse_entry. cbn [fst snd]. rewrite Hr, He.
    rewrite (collect_frame env rest _ key Hnot).
    now apply assign_same.
  - destruct (parse_entry env (k, c)) as [r' | exn] eqn:E.
    + destruct (any_error r'); now apply IH.
    + simpl in Hnone. rewrite E in Hnone. discriminate.
Qed.

Lemma set_own_fresh {V : Type} (o : JsObject V) (k : string) (v : V) :
  ~ In k (map fst o) -> set_own o k v = (o ++ [(k, v)])%list.
Proof.
  induction o as [| [k' v'] rest IH]; simpl; intros Hnot; [reflexivity |].
  destruct (String.eqb k k') eqn:E.
  - apply String.eqb_eq in E. subst k'. elim Hnot. now left.
  - rewrite IH; [reflexivity |]. intros H. apply Hnot. now right.
Qed.

(** When no entry fails, [parseEnv]'s loop creates one property per entry
    other than [__proto__], in the order of the entries. *)
Lemma collect_keys env entries result :
  first_throw env entries = None ->
  entry_errors env entries = [] ->
  NoDup (map fst (own result) ++ map fst entries)%list ->
  map fst (own (collect env entries result))
  = (map fst (own result) ++ filter not_proto (map fst entries))%list.
Proof.
  revert result.
  induction entries as [| [k c] rest IH]; intros result Hnone Hnil Hnd.
  - simpl. now rewrite app_nil_r.
  - destruct (entry_errors_nil_In env ((k, c) :: rest) k c Hnone Hnil
                (or_introl eq_refl)) as (r & Hr & He).
    pose proof (first_throw_tail _ _ _ Hnone) as Hnone'.
    pose proof (entry_errors_tail _ _ _ Hnil) as Hnil'.
    cbn [collect]. unfold parse_entry at 1. cbn [fst snd map filter].
    rewrite Hr, He. cbn [map fst] in Hnd.
    assert (Hfresh : ~ In k (map fst (own result))).
    { intros H. apply NoDup_remove_2 in Hnd. apply Hnd.
      apply in_or_app. now left. }
    assert (Hnd' : NoDup (map fst (own result) ++ map fst rest)%list)
      by (eapply NoDup_remove_1; exact Hnd).
    unfold assign, not_proto.
    destruct (String.eqb k "__proto__"); cbn [negb].
    + assert (Hsame : own (if is_object_or_null (any_value r)
                           then {| own := own result;
                                   proto := PrototypeValue (any_value r) |}
                           else result) = own result)
        by (destruct (is_object_or_null (any_value r)); reflexivity).
      rewrite (IH _ Hnone' Hnil'); rewrite Hsame; [reflexivity | exact Hnd'].
    + rewrite (IH _ Hnone' Hnil'); cbn [own];
        rewrite (set_own_fresh _ k (any_value r) Hfresh), map_app;
        cbn [map fst]; rewrite <- app_assoc; [reflexivity |].
      exact Hnd.
Qed.

(** C6, as the code has it.  When [parseEnv] succeeds, a schema key that
    is explicitly optional, has no default, and whose variable is unset or
    empty is a property of the returned mapping, holding [undefined]:
    [parseEnv] assigns [result[key] = undefined].  The one exception is
    the key [__proto__], for which the assignment creates no property. *)
Theorem parseEnv_optional_key_undefined
    (env : JsObject (option string)) (schema : EnvSchema)
    (result : ResultObject) (key : string) (config : EnvVarConfig) :
  obj_wf schema ->
  parseEnv env schema = Normal result ->
  In (key, config) schema ->
  required config = Some false ->
  default config = JUndefined ->
  env_read env key = RawUndefined
  \/ env_read env key = RawString EmptyString ->
  (key <> "__proto__" ->
   get_own (own result) key = Some (Data JUndefined)
   /\ In key (Object_keys (own result)))
  /\ (key = "__proto__" -> get_own (own result) key = None).
Proof.
  intros Hwf Hparse Hin Hreq Hdef Hraw.
  apply parseEnv_Normal in Hparse. destruct Hparse as (Hnone & _ & ->).
  split.
  - intros Hkey.
    assert (Hget : get_own
                     (own (collect env (Object_entries schema) empty_object))
                     key = Some (Data JUndefined)).
    { apply (collect_assigns env (Object_entries schema) empty_object key
               config (as_any {| value := JUndefined; error := None |})).
      - apply Object_keys_NoDup. exact Hwf.
      - exact Hnone.
      - now apply Object_entries_In.
      - exact Hkey.
      - assert (Hmissing : exists o,
                   env_read env key = raw_of o
                   /\ (o = None \/ o = Some EmptyString)).
        { destruct Hraw as [-> | ->];
            [exists None | exists (Some EmptyString)]; auto. }
        destruct Hmissing as (o & -> & Hmiss).
        apply parseValue_raw_typed. eexists. split; [| reflexivity].
        rewrite (parseValue_missing o config key Hmiss), Hdef, Hreq.
        reflexivity.
      - reflexivity. }
    split; [exact Hget |].
    apply Object_keys_In. apply get_own_In in Hget.
    apply (in_map fst) in Hget. exact Hget.
  - intros ->. apply collect_proto.
Qed.

(** ** More on the schema validator *)

Lemma string_app_assoc (a b c : string) : (a ++ b) ++ c = a ++ b ++ c.
Proof. induction a as [| x a IH]; simpl; [reflexivity | now rewrite IH]. Qed.

Lemma contains_app_l (s t sub : string) :
  contains s sub -> contains (s ++ t) sub.
Proof.
  intros (before & after & ->). exists before, (after ++ t).
  now rewrite !string_app_assoc.
Qed.

Lemma contains_app_r (s t sub : string) :
  contains t sub -> contains (s ++ t) sub.
Proof.
  intros (before & after & ->). exists (s ++ before), after.
  now rewrite !string_app_assoc.
Qed.

Lemma string_app_nil_r (s : string) : s ++ EmptyString = s.
Proof. induction s as [| c s IH]; simpl; [reflexivity | now rewrite IH]. Qed.

Lemma contains_prefix (s rest : string) : contains (s ++ rest) s.
Proof. exists EmptyString, rest. reflexivity. Qed.

Lemma contains_suffix (before s : string) : contains (before ++ s) s.
Proof. exists before, EmptyString. now rewrite string_app_nil_r. Qed.

Lemma contains_trans (s t u : string) :
  contains s t -> contains t u -> contains s u.
Proof.
  intros (b1 & a1 & ->) (b2 & a2 & ->).
  exists (b1 ++ b2), (a2 ++ a1). now rewrite !string_app_assoc.
Qed.

Lemma join_contains (xs : list string) (sep x : string) :
  In x xs -> contains (join xs sep) x.
Proof.
  unfold join.
  induction xs as [| y [| z rest] IH]; [contradiction | |].
  - intros [-> | []]. apply (contains_suffix EmptyString).
  - intros [-> | Hin].
    + apply contains_prefix.
    + change (String.concat sep (y :: z :: rest))
        with (y ++ sep ++ String.concat sep (z :: rest)).
      apply contains_app_r, contains_app_r. apply IH. exact Hin.
Qed.

(** The text of [formatValidationErrors] has, for each error, its
    variable with its message and its "Expected" and "Received" lines. *)
Lemma formatValidationErrors_contains (errs : list ValidationError) e :
  In e errs ->
  contains (formatValidationErrors errs) (variable e ++ ": " ++ message e)
  /\ (forall x, expected e = Some x -> x <> EmptyString ->
        contains (formatValidationErrors errs) ("Expected: " ++ x))
  /\ (forall y, received e = Some y ->
        contains (formatValidationErrors errs) ("Received: " ++ y)).
Proof.
  intros Hin. unfold formatValidationErrors.
  match goal with
  | |- context [map ?f errs] =>
      pose proof (join_contains (map f errs) (newline ++ newline) (f e)
                    (in_map f errs e Hin)) as Hblock
  end.
  cbv beta zeta in Hblock.
  split; [| split].
  - eapply contains_trans; [exact Hblock |].
    destruct (truthy_string (expected e)); destruct (received e).
    + do 2 apply contains_app_l. apply (contains_suffix "  ✘ ").
    + apply contains_app_l. apply (contains_suffix "  ✘ ").
    + apply contains_app_l. apply (contains_suffix "  ✘ ").
    + apply (contains_suffix "  ✘ ").
  - intros x Hx Hne. eapply contains_trans; [exact Hblock |].
    rewrite Hx. cbn [truthy_string template_string].
    apply String.eqb_neq in Hne. rewrite Hne. cbn [negb].
    destruct (received e); [apply contains_app_l |];
      do 2 apply contains_app_r;
      apply (contains_suffix "    ").
  - intros y Hy. eapply contains_trans; [exact Hblock |].
    rewrite Hy.
    do 2 apply contains_app_r.
    apply (contains_suffix "    ").
Qed.

(** X10.  When [validateEnv] returns errors, [parseEnv] throws an
    exception whose message begins with "Environment validation failed:"
    and names every error of [validateEnv]: its variable, followed by ": "
    and its message, the "Expected: ..." line of each error whose expected
    text is not empty, and the "Received: ..." line of each error. *)
Theorem parseEnv_message_lists_failures
    (env : JsObject (option string)) (schema : EnvSchema)
    (v : ValidationResult) (e : ValidationError) :
  validateEnv env schema = Normal v ->
  In e (errors v) ->
  exists err,
    parseEnv env schema = Throw err
    /\ startsWith (error_message err) "Environment validation failed:"
       = true
    /\ contains (error_message err) (variable e ++ ": " ++ message e)
    /\ (forall x, expected e = Some x -> x <> EmptyString ->
          contains (error_message err) ("Expected: " ++ x))
    /\ (forall y, received e = Some y ->
          contains (error_message err) ("Received: " ++ y)).
Proof.
  intros Hv Hmem. apply validateEnv_Normal in Hv.
  destruct Hv as (Hnone & ->). cbn [errors] in Hmem.
  rewrite parseEnv_spec, Hnone.
  destruct (formatValidationErrors_contains _ e Hmem) as (H1 & H2 & H3).
  destruct (entry_errors env (Object_entries schema)) as [| e0 rest] eqn:E;
    [contradiction |].
  unfold Nat.ltb; cbn [List.length Nat.leb].
  eexists. split; [reflexivity |].
  unfold new_Error. cbn [error_message].
  split; [apply prefix_app |].
  split; [| split].
  - now do 2 apply contains_app_r.
  - intros x Hx Hne. do 2 apply contains_app_r. now apply H2.
  - intros y Hy. do 2 apply contains_app_r. now apply H3.
Qed.

(** X11.  When [parseEnv] succeeds, the own properties of the mapping it
    returns are the keys of the schema other than [__proto__], created in
    the order of [Object.entries(schema)], each holding the value the
    parser gives for it; variables of the environment that the schema
    does not declare are not copied, and the mapping never has an own
    property [__proto__]. *)
Theorem parseEnv_result_keys
    (env : JsObject (option string)) (schema : EnvSchema)
    (result : ResultObject) :
  obj_wf schema ->
  parseEnv env schema = Normal result ->
  map fst (own result) = filter not_proto (Object_keys schema)
  /\ (forall key config,
        In (key, config) schema ->
        exists r,
          parseValue_raw (env_read env key) config key = Normal r
          /\ any_error r = None
          /\ (key <> "__proto__" ->
              get_own (own result) key = Some (any_value r)))
  /\ (forall key,
        ~ In key (map fst schema) -> get_own (own result) key = None)
  /\ get_own (own result) "__proto__" = None.
Proof.
  intros Hwf Hparse.
  apply parseEnv_Normal in Hparse. destruct Hparse as (Hnone & Hnil & ->).
  assert (Hnd : NoDup (map fst (Object_entries schema)))
    by (apply Object_keys_NoDup; exact Hwf).
  split; [| split; [| split]].
  - apply (collect_keys env _ empty_object Hnone Hnil). exact Hnd.
  - intros key config Hin.
    apply (proj2 (Object_entries_In schema (key, config))) in Hin.
    destruct (entry_errors_nil_In env _ key config Hnone Hnil Hin)
      as (r & Hr & He).
    exists r. split; [exact Hr |]. split; [exact He |].
    intros Hkey. eapply collect_assigns; eauto.
  - intros key Hnot.
    rewrite (collect_frame env _ empty_object key); [reflexivity |].
    intros H. apply Hnot. now apply Object_keys_In.
  - apply collect_proto.
Qed.

(** X12.  [parseEnv] and [validateEnv] agree: on the same environment and
    schema, whenever [validateEnv] returns, [parseEnv] throws exactly when
    the result has [valid: false] and returns exactly when it has
    [valid: true]; when [validateEnv] throws, [parseEnv] throws the same
    exception; and when [parseEnv] returns, [validateEnv] returns a
    result with [valid: true] and no errors. *)
Theorem parseEnv_throws_iff_invalid
    (env : JsObject (option string)) (schema : EnvSchema) :
  (forall v,
     validateEnv env schema = Normal v ->
     (throws (parseEnv env schema) <-> valid v = false)
     /\ (returns (parseEnv env schema) <-> valid v = true))
  /\ (forall exn,
        validateEnv env schema = Throw exn ->
        parseEnv env schema = Throw exn)
  /\ (returns (parseEnv env schema) ->
      exists v,
        validateEnv env schema = Normal v
        /\ valid v = true /\ errors v = []).
Proof.
  rewrite validateEnv_spec, parseEnv_spec.
  destruct (first_throw env (Object_entries schema)) as [exn0 |].
  - split; [discriminate |]. split; [intros exn [= <-]; reflexivity |].
    intros (a & Ha). discriminate.
  - destruct (entry_errors env (Object_entries schema)) as [| e0 rest];
      unfold Nat.ltb; cbn [List.length Nat.leb Nat.eqb].
    + split; [| split].
      * intros v [= <-]. cbn [valid]. split; split.
        -- intros (e & He). discriminate.
        -- discriminate.
        -- reflexivity.
        -- intros _. eexists. reflexivity.
      * discriminate.
      * intros _. eexists. split; [reflexivity |]. now split.
    + split; [| split].
      * intros v [= <-]. cbn [valid]. split; split.
        -- reflexivity.
        -- intros _. eexists. reflexivity.
        -- intros (a & Ha). discriminate.
        -- discriminate.
      * discriminate.
      * intros (a & Ha). discriminate.
Qed.

Lemma includes_ext (xs ys : list string) (x : string) :
  (In x xs <-> In x ys) -> includes xs x = includes ys x.
Proof.
  intros H.
  destruct (includes xs x) eqn:Ex, (includes ys x) eqn:Ey; try reflexivity.
  - apply includes_In in Ex. apply includes_not_In in Ey. tauto.
  - apply includes_not_In in Ex. apply includes_In in Ey. tauto.
Qed.

Lemma warning_loop_closed env schemaKeys keys ws :
  warning_loop env schemaKeys keys ws =
  (ws ++ map not_in_schema_warning
        (filter (fun key =>
                   (negb (includes schemaKeys key)
                    && reads_defined env key)%bool)
                keys))%list.
Proof.
  revert ws. induction keys as [| key rest IH]; intros ws; simpl.
  - now rewrite app_nil_r.
  - destruct (negb (includes schemaKeys key) && reads_defined env key)%bool;
      rewrite IH; [| reflexivity].
    unfold push. simpl. now rewrite <- app_assoc.
Qed.

(** X13.  In every result that [validateEnv] returns, the warnings are,
    in the order of [Object.keys(env)], one warning for each variable of
    the environment that holds a value (the empty string counts) and is
    not a schema key, and nothing else. *)
Theorem validateEnv_warnings_in_order
    (env : JsObject (option string)) (schema : EnvSchema)
    (v : ValidationResult) :
  validateEnv env schema = Normal v ->
  warnings v =
  map (fun key => "Environment variable " ++ dquote ++ key ++ dquote
                    ++ " is not defined in schema")
      (filter (undeclared env schema) (Object_keys env)).
Proof.
  intros Hv. apply validateEnv_Normal in Hv. destruct Hv as (_ & ->).
  cbn [warnings]. rewrite warning_loop_closed. simpl.
  f_equal. apply filter_ext. intros key. unfold undeclared.
  f_equal. f_equal. apply includes_ext. apply Object_keys_In.
Qed.

Lemma parseValue_raw_nonblank rawValue config name :
  parseValue_raw (nonblank rawValue) config name
  = parseValue_raw rawValue config name.
Proof. destruct rawValue as [| [| c s] | f]; reflexivity. Qed.

Lemma parse_entry_nonblank_ext env env' entry :
  nonblank (env_read env' (fst entry)) = nonblank (env_read env (fst entry)) ->
  parse_entry env' entry = parse_entry env entry.
Proof.
  intros H. unfold parse_entry.
  rewrite <- (parseValue_raw_nonblank (env_read env' (fst entry))), H.
  apply parseValue_raw_nonblank.
Qed.

Lemma env_read_blank_as_unset env key :
  nonblank (env_read (blank_as_unset env) key) = nonblank (env_read env key).
Proof.
  unfold env_read.
  assert (Hown : get_own (blank_as_unset env) key
                 = option_map (fun rawValue =>
                                 match rawValue with
                                 | Some EmptyString => None
                                 | _ => rawValue
                                 end)
                              (get_own env key)).
  { unfold blank_as_unset.
    induction env as [| [k v] rest IH]; simpl; [reflexivity |].
    destruct (String.eqb key k); [| exact IH].
    destruct v as [[| c s] |]; reflexivity. }
  rewrite Hown.
  destruct (get_own env key) as [[[| c s] |] |]; reflexivity.
Qed.

(** X14.  [parseEnv] and the errors of [validateEnv] depend on the
    environment only through what the schema keys read as, with the empty
    string read as unset: two environments that agree on that give the
    same outcome of [parseEnv] (the same mapping or the same exception)
    and the same outcome of [validateEnv] up to the warnings.  In
    particular, unsetting every variable that is set to the empty string
    changes neither. *)
Theorem parseEnv_blank_is_unset
    (env : JsObject (option string)) (schema : EnvSchema) :
  (forall env',
     (forall key, In key (map fst schema) ->
                  nonblank (env_read env' key) = nonblank (env_read env key)) ->
     parseEnv env' schema = parseEnv env schema
     /\ (forall exn, validateEnv env schema = Throw exn ->
                     validateEnv env' schema = Throw exn)
     /\ (forall v, validateEnv env schema = Normal v ->
           exists v',
             validateEnv env' schema = Normal v'
             /\ errors v' = errors v /\ valid v' = valid v))
  /\ parseEnv (blank_as_unset env) schema = parseEnv env schema.
Proof.
  assert (Hgen : forall env',
             (forall key, In key (map fst schema) ->
                nonblank (env_read env' key) = nonblank (env_read env key)) ->
             forall entry, In entry (Object_entries schema) ->
                           parse_entry env' entry = parse_entry env entry).
  { intros env' H [key config] Hin. apply parse_entry_nonblank_ext.
    cbn [fst]. apply H. eapply schema_entry_key; eauto. }
  split.
  - intros env' H. specialize (Hgen env' H).
    rewrite !parseEnv_spec, !validateEnv_spec.
    rewrite (first_throw_ext env env' _ Hgen).
    rewrite (entry_errors_ext env env' _ Hgen).
    rewrite (collect_ext env env' _ _ Hgen).
    split; [reflexivity |].
    destruct (first_throw env (Object_entries schema)).
    + split; [intros exn [= <-]; reflexivity | discriminate].
    + split; [discriminate |].
      intros v [= <-]. eexists. split; [reflexivity |]. now split.
  - rewrite !parseEnv_spec.
    assert (Hsame : forall entry, In entry (Object_entries schema) ->
              parse_entry (blank_as_unset env) entry = parse_entry env entry).
    { apply Hgen. intros key _. apply env_read_blank_as_unset. }
    rewrite (first_throw_ext env _ _ Hsame).
    rewrite (entry_errors_ext env _ _ Hsame).
    rewrite (collect_ext env _ _ _ Hsame). reflexivity.
Qed.

(** A schema key whose parse returns an error makes [parseEnv] throw. *)
Lemma some_key_fails_throws env schema :
  some_key_fails env schema -> throws (parseEnv env schema).
Proof.
  intros Hfail. apply entry_errors_schema in Hfail.
  rewrite parseEnv_spec.
  destruct (first_throw env (Object_entries schema)) as [exn |];
    [now exists exn |].
  destruct (entry_errors env (Object_entries schema)) as [| e0 rest];
    [now elim Hfail |].
  unfold Nat.ltb; cbn [List.length Nat.leb]. eexists. reflexivity.
Qed.

(** When every schema key reads as declared, that is the only way. *)
Lemma parseEnv_throws_declared env schema :
  reads_declared env schema ->
  throws (parseEnv env schema) <-> some_key_fails env schema.
Proof.
  intros Hdeclared. split; [| apply some_key_fails_throws].
  rewrite <- entry_errors_schema, parseEnv_spec.
  rewrite (reads_declared_no_throw env schema Hdeclared).
  destruct (entry_errors env (Object_entries schema)) as [| e0 rest];
    unfold Nat.ltb; cbn [List.length Nat.leb].
  - intros (e & He). discriminate.
  - discriminate.
Qed.

(** X19.  When every schema key reads, in the environment, as a string or
    as [undefined] (no schema key names a property that the environment
    inherits and does not define itself), [validateEnv] returns, and
    [parseEnv] throws exactly when the parse of at least one schema key
    gives an error; it then returns no mapping, and the message of the
    exception begins with "Environment validation failed:". *)
Theorem declared_reads_never_throw
    (env : JsObject (option string)) (schema : EnvSchema) :
  reads_declared env schema ->
  returns (validateEnv env schema)
  /\ (throws (parseEnv env schema) <-> some_key_fails env schema)
  /\ (throws (parseEnv env schema) \/ returns (parseEnv env schema))
  /\ (throws (parseEnv env schema) -> ~ returns (parseEnv env schema))
  /\ (forall e, parseEnv env schema = Throw e ->
                startsWith (error_message e)
                  "Environment validation failed:" = true).
Proof.
  intros Hdeclared.
  pose proof (reads_declared_no_throw env schema Hdeclared) as Hnone.
  split; [rewrite validateEnv_spec, Hnone; eexists; reflexivity |].
  split; [now apply parseEnv_throws_declared |].
  split; [| split].
  - destruct (parseEnv env schema) as [result | exn];
      [right; now exists result | left; now exists exn].
  - intros (e & ->) (a & Ha). discriminate.
  - intros e He. apply parseEnv_Throw in He.
    destruct He as [He | (_ & _ & ->)]; [congruence |].
    apply prefix_app.
Qed.

(** X20.  [validateEnv] throws exactly when some schema key of type
    boolean reads, in the environment, as something that is not a string:
    a property that the environment inherits and does not define itself.
    The exception is the TypeError of the call of [toLowerCase], and
    [parseEnv] throws it too. *)
Theorem validateEnv_throws_iff_inherited_boolean
    (env : JsObject (option string)) (schema : EnvSchema) :
  (throws (validateEnv env schema) <->
   exists key config f,
     In (key, config) schema
     /\ type config = "boolean"
     /\ env_read env key = RawForeign f)
  /\ (forall exn,
        validateEnv env schema = Throw exn ->
        exn = mkJsError "TypeError" "value.toLowerCase is not a function"
        /\ parseEnv env schema = Throw exn).
Proof.
  rewrite validateEnv_spec, parseEnv_spec.
  destruct (first_throw env (Object_entries schema)) as [exn0 |] eqn:E.
  - destruct (first_throw_Some env _ exn0 E) as (key & config & Hin & Hk).
    apply (proj1 (Object_entries_In schema (key, config))) in Hin.
    destruct (parseValue_raw_throws _ _ _ _ Hk) as (Ht & (f & Hf) & Hexn).
    split.
    + split; [| intros _; now exists exn0].
      intros _. now exists key, config, f.
    + intros exn [= <-]. now split.
  - split; [| discriminate].
    split; [intros (e & He); discriminate |].
    intros (key & config & f & Hin & Ht & Hf).
    pose proof (proj1 (first_throw_None env _) E (key, config)
                  (proj2 (Object_entries_In schema (key, config)) Hin))
      as (r & Hr).
    unfold parse_entry in Hr. cbn [fst snd] in Hr.
    rewrite Hf, (parseValue_raw_boolean_throws f config key Ht) in Hr.
    discriminate.
Qed.

Lemma entry_errors_none env entries :
  (forall entry, In entry entries -> entry_error env entry = None) ->
  entry_errors env entries = [].
Proof.
  induction entries as [| entry rest IH]; intros H; [reflexivity |].
  rewrite entry_errors_cons, (H entry) by now left.
  apply IH. intros e He. apply H. now right.
Qed.

(** The parse of a key whose variable is unset or empty. *)
Lemma parseValue_raw_missing rawValue config name :
  rawValue = RawUndefined \/ rawValue = RawString EmptyString ->
  parseValue_raw rawValue config name =
  if is_defined (default config) then
    Normal {| any_value := Data (default config); any_error := None |}
  else if not_false (required config) then
    Normal {| any_value := Data JUndefined;
              any_error := Some {|
                variable := name;
                message := "Required environment variable is missing";
                expected := Some (type config ++ " value");
                received := Some "undefined" |} |}
  else
    Normal {| any_value := Data JUndefined; any_error := None |}.
Proof.
  intros [-> | ->]; cbn [parseValue_raw];
    [rewrite (parseValue_missing None config name (or_introl eq_refl))
    | rewrite (parseValue_missing (Some EmptyString) config name
                 (or_intror eq_refl))];
    destruct (is_defined (default config));
    destruct (not_false (required config)); reflexivity.
Qed.

(** X17.  If every descriptor of the schema has a default and none of the
    schema keys is set in the environment (each reads as [undefined] or
    as the empty string), [parseEnv] succeeds and maps each key, other
    than [__proto__], to its default. *)
Theorem parseEnv_all_defaults
    (env : JsObject (option string)) (schema : EnvSchema) :
  obj_wf schema ->
  (forall key config, In (key, config) schema ->
     default config <> JUndefined
     /\ (env_read env key = RawUndefined
         \/ env_read env key = RawString EmptyString)) ->
  exists result,
    parseEnv env schema = Normal result
    /\ forall key config,
         In (key, config) schema -> key <> "__proto__" ->
         get_own (own result) key = Some (Data (default config)).
Proof.
  intros Hwf Hall.
  assert (Hparse : forall key config, In (key, config) schema ->
            parseValue_raw (env_read env key) config key
            = Normal {| any_value := Data (default config);
                        any_error := None |}).
  { intros key config Hin. destruct (Hall key config Hin) as (Hd & Hraw).
    rewrite (parseValue_raw_missing _ config key Hraw).
    now rewrite (is_defined_true _ Hd). }
  assert (Hnone : first_throw env (Object_entries schema) = None).
  { apply first_throw_None. intros [key config] Hin.
    apply (proj1 (Object_entries_In schema (key, config))) in Hin.
    unfold parse_entry. cbn [fst snd]. rewrite (Hparse key config Hin).
    eexists. reflexivity. }
  assert (Hnil : entry_errors env (Object_entries schema) = []).
  { apply entry_errors_none. intros [key config] Hin.
    apply (proj1 (Object_entries_In schema (key, config))) in Hin.
    unfold entry_error, parse_entry. cbn [fst snd].
    now rewrite (Hparse key config Hin). }
  rewrite parseEnv_spec, Hnone, Hnil. cbn [List.length Nat.ltb Nat.leb].
  eexists. split; [reflexivity |].
  intros key config Hin Hkey.
  apply (collect_assigns env (Object_entries schema) empty_object key config
           {| any_value := Data (default config); any_error := None |}).
  - apply Object_keys_NoDup. exact Hwf.
  - exact Hnone.
  - now apply Object_entries_In.
  - exact Hkey.
  - now apply Hparse.
  - reflexivity.
Qed.

(** X18.  If a schema key has no default, is not explicitly optional, and
    is not set in the environment (it reads as [undefined] or as the
    empty string), then [parseEnv] throws and every result that
    [validateEnv] returns is invalid, with the error "Required
    environment variable is missing" for that key, whatever the other
    keys are. *)
Theorem missing_required_key_fails
    (env : JsObject (option string)) (schema : EnvSchema)
    (key : string) (config : EnvVarConfig) :
  In (key, config) schema ->
  default config = JUndefined ->
  required config <> Some false ->
  env_read env key = RawUndefined
  \/ env_read env key = RawString EmptyString ->
  throws (parseEnv env schema)
  /\ forall v,
       validateEnv env schema = Normal v ->
       valid v = false
       /\ In {| variable := key;
                message := "Required environment variable is missing";
                expected := Some (type config ++ " value");
                received := Some "undefined" |}
             (errors v).
Proof.
  intros Hin Hd Hr Hraw.
  assert (Hparse :
            parseValue_raw (env_read env key) config key
            = Normal {| any_value := Data JUndefined;
                        any_error := Some {|
                          variable := key;
                          message := "Required environment variable is missing";
                          expected := Some (type config ++ " value");
                          received := Some "undefined" |} |}).
  { rewrite (parseValue_raw_missing _ config key Hraw), Hd. simpl.
    now rewrite (not_false_true _ Hr). }
  assert (Hmem :
            In {| variable := key;
                  message := "Required environment variable is missing";
                  expected := Some (type config ++ " value");
                  received := Some "undefined" |}
               (entry_errors env (Object_entries schema))).
  { apply entry_errors_In. exists (key, config). split.
    - now apply Object_entries_In.
    - apply entry_error_Some. eexists. split; [exact Hparse | reflexivity]. }
  split.
  - apply some_key_fails_throws.
    exists key, config. do 2 eexists.
    split; [exact Hin |]. split; [exact Hparse | reflexivity].
  - intros v Hv. apply validateEnv_Normal in Hv. destruct Hv as (_ & ->).
    cbn [valid errors]. split; [| exact Hmem].
    destruct (entry_errors env (Object_entries schema));
      [contradiction | reflexivity].
Qed.

End ValidatorClaims.

(** ** [createEnv] *)

Section IndexFacts.

Context {host : Host} {realm : Realm}.

(** X15.  With [throwOnError: false], [createEnv] never throws.  When
    [parseEnv] throws, as it does if some schema key fails, [createEnv]
    returns the empty object, not the keys that did parse, and calls
    [console.error] with the message only when [verbose] is set;
    otherwise it returns what [parseEnv] returns. *)
Theorem createEnv_no_throw
    (process_env : JsObject (option string)) (schema : EnvSchema)
    (options : CreateEnvOptions) :
  throwOnError options = Some false ->
  let environment := or_default (env options) process_env in
  returns (snd (createEnv process_env schema options))
  /\ (some_key_fails environment schema ->
      snd (createEnv process_env schema options) = Normal empty_object)
  /\ (forall err,
        parseEnv environment schema = Throw err ->
        snd (createEnv process_env schema options) = Normal empty_object
        /\ fst (createEnv process_env schema options) =
           if or_default (verbose options) false
           then [console_error (error_message err)]
           else [])
  /\ (forall result,
        parseEnv environment schema = Normal result ->
        snd (createEnv process_env schema options) = Normal result).
Proof.
  intros Hthrow environment.
  pose proof (some_key_fails_throws environment schema) as Hfails.
  unfold createEnv. fold environment. rewrite Hthrow. cbn [or_default].
  destruct (parseEnv environment schema) as [result | err].
  - split; [now exists result |]. split; [| split].
    + intros Hfail. apply Hfails in Hfail. destruct Hfail as (e & He).
      discriminate.
    + discriminate.
    + intros result' [= <-]. reflexivity.
  - split; [now exists empty_object |]. split; [| split].
    + reflexivity.
    + intros err' [= <-]. split; [reflexivity |].
      simpl. now rewrite orb_false_r.
    + discriminate.
Qed.

(** X16.  Unless [throwOnError] is [false], [createEnv] has the outcome of
    [parseEnv] on the chosen environment ([options.env], or [process.env]
    when it is left out): it throws when some schema key fails (and, when
    every schema key reads as declared, only then), with the exception of
    [parseEnv], after one call of [console.error] with its message,
    whatever [verbose] is; on success it prints only when [verbose] is
    set. *)
Theorem createEnv_rethrows
    (process_env : JsObject (option string)) (schema : EnvSchema)
    (options : CreateEnvOptions) :
  throwOnError options <> Some false ->
  let environment := or_default (env options) process_env in
  snd (createEnv process_env schema options) = parseEnv environment schema
  /\ (some_key_fails environment schema ->
      throws (snd (createEnv process_env schema options)))
  /\ (reads_declared environment schema ->
      throws (snd (createEnv process_env schema options)) ->
      some_key_fails environment schema)
  /\ (forall err,
        parseEnv environment schema = Throw err ->
        fst (createEnv process_env schema options)
        = [console_error (error_message err)])
  /\ (forall result,
        parseEnv environment schema = Normal result ->
        fst (createEnv process_env schema options) =
        if or_default (verbose options) false
        then [console_log "✔ Environment validation successful"]
        else []).
Proof.
  intros Hthrow environment.
  assert (Ht : or_default (throwOnError options) true = true).
  { destruct (throwOnError options) as [[|] |]; try reflexivity.
    now elim Hthrow. }
  pose proof (some_key_fails_throws environment schema) as Hfails.
  pose proof (parseEnv_throws_declared environment schema) as Hiff.
  unfold createEnv. fold environment. rewrite Ht.
  destruct (parseEnv environment schema) as [result | err]; cbn [fst snd].
  - split; [reflexivity |]. split; [exact Hfails |].
    split; [intros Hd; apply (Hiff Hd) |].
    split; [discriminate |]. intros result' [= <-]. reflexivity.
  - split; [reflexivity |]. split; [exact Hfails |].
    split; [intros Hd; apply (Hiff Hd) |].
    split; [| discriminate].
    intros err' [= <-]. now rewrite orb_true_r.
Qed.

End IndexFacts.

(** ** A schema key that the environment inherits *)

Section InheritedKey.

Context {host : Host}.

#[local] Existing Instance Example.example_realm.

(** C2, where the code breaks it.  On the empty environment [{}] and the
    schema [{ constructor: { type: 'boolean' } }], [env[key]] is the
    function that every object inherits as [constructor], and
    [parseBoolean] calls its [toLowerCase]: [validateEnv] does not return
    a result but throws a TypeError, and so does [validate], whatever
    [process.env] is; [parseEnv] throws the same TypeError, although the
    parse of no schema key has returned an error, with a message that
    does not begin with "Environment validation failed:". *)
Theorem validateEnv_throws_on_inherited_key :
  validateEnv [] [("constructor", descriptor "boolean")]
  = Throw (mkJsError "TypeError" "value.toLowerCase is not a function")
  /\ (forall process_env,
        validate process_env [("constructor", descriptor "boolean")]
          (Some [])
        = Throw (mkJsError "TypeError"
                   "value.toLowerCase is not a function"))
  /\ parseEnv [] [("constructor", descriptor "boolean")]
     = Throw (mkJsError "TypeError" "value.toLowerCase is not a function")
  /\ ~ some_key_fails [] [("constructor", descriptor "boolean")]
  /\ startsWith "value.toLowerCase is not a function"
       "Environment validation failed:" = false.
Proof.
  split; [reflexivity |]. split; [reflexivity |]. split; [reflexivity |].
  split; [| reflexivity].
  intros (key & config & r & e & [[= <- <-] | []] & Hr & _).
  discriminate.
Qed.

End InheritedKey.

(** ** The model at work

    The scenarios of the specification and of the test suite, evaluated on
    [example_host] and [example_realm]. *)

Section Scenarios.

#[local] Existing Instance Example.example_host.
#[local] Existing Instance Example.example_realm.

Example scenario_typed_environment :
  parseEnv [("PORT", Some "8080"); ("DEBUG", Some "true")]
           [("PORT", with_default (descriptor "number") number_3000);
            ("DEBUG", with_default (descriptor "boolean") (JBool false))]
  = Normal {| own := [("PORT", Data (JNum (number_of_Z 8080)));
                      ("DEBUG", Data (JBool true))];
              proto := ObjectPrototype |}.
Proof. reflexivity. Qed.

Example scenario_defaults :
  parseEnv []
           [("PORT", with_default (descriptor "number") number_3000);
            ("DEBUG", with_default (descriptor "boolean") (JBool false))]
  = Normal {| own := [("PORT", Data number_3000);
                      ("DEBUG", Data (JBool false))];
              proto := ObjectPrototype |}.
Proof. reflexivity. Qed.

Example scenario_missing_required :
  parseEnv [] [("DATABASE_URL", with_required (descriptor "url") true)]
  = Throw (new_Error
             ("Environment validation failed:" ++ newline
                ++ "  ✘ DATABASE_URL: Required environment variable is missing"
                ++ newline ++ "    Expected: url value"
                ++ newline ++ "    Received: undefined")).
Proof. reflexivity. Qed.

Example scenario_invalid_number :
  validateEnv [("PORT", Some "not-a-number")]
              [("PORT", with_required (descriptor "number") true)]
  = Normal {| valid := false;
              errors := [ {| variable := "PORT";
                             message := "Invalid number format";
                             expected := Some "number";
                             received := Some "not-a-number" |} ];
              warnings := [] |}.
Proof. reflexivity. Qed.

Example scenario_enum :
  parseValue (Some "staging")
    (with_values (descriptor "enum") ["development"; "production"]) "NODE_ENV"
  = Normal {| value := JStr "staging";
              error := Some {|
                variable := "NODE_ENV";
                message := "Value must be one of: development, production";
                expected := Some "development, production";
                received := Some "staging" |} |}.
Proof. reflexivity. Qed.

Example scenario_unused_variable :
  validateEnv [("PORT", Some "3000"); ("EXTRA", Some "x")]
              [("PORT", descriptor "number")]
  = Normal {| valid := true;
              errors := [];
              warnings := [ "Environment variable " ++ dquote ++ "EXTRA"
                              ++ dquote ++ " is not defined in schema" ] |}.
Proof. reflexivity. Qed.

Example scenario_too_short :
  parseValue (Some "short")
    (with_required (with_minLength (descriptor "string") 20) true) "API_KEY"
  = Normal {| value := JStr "short";
              error := Some {|
                variable := "API_KEY";
                message := "String is too short (minimum: 20 characters)";
                expected := Some "string with at least 20 characters";
                received := Some "string with 5 characters" |} |}.
Proof. reflexivity. Qed.

Example scenario_not_integer :
  parseValue (Some "3.14")
    (mkConfig "number" None JUndefined None None None None None None
       (Some true) None [])
    "TEST"
  = Normal {| value := JNum (S754_finite false 7070651414971679 (-51));
              error := Some {|
                variable := "TEST";
                message := "Value must be an integer";
                expected := Some "integer";
                received := Some "3.14" |} |}.
Proof. reflexivity. Qed.

(** The empty string against a string descriptor with [minLength] 5 is
    a missing variable, not a string that is too short. *)
Example scenario_empty_string :
  parseValue (Some EmptyString) (with_minLength (descriptor "string") 5)
    "NAME"
  = Normal {| value := JUndefined;
              error := Some {|
                variable := "NAME";
                message := "Required environment variable is missing";
                expected := Some "string value";
                received := Some "undefined" |} |}.
Proof. reflexivity. Qed.

(** Which property names are array indices. *)
Example array_index_examples :
  map array_index ["0"; "1"; "42"; "4294967294";
                   "01"; "4294967295"; "-1"; "1.5"; "PORT"; EmptyString]
  = [Some 0%N; Some 1%N; Some 42%N; Some 4294967294%N;
     None; None; None; None; None; None].
Proof. reflexivity. Qed.

(** [Object.keys({ b: _, 2: _, a: _, 1: _ })] is [1, 2, b, a]. *)
Example Object_keys_order :
  Object_keys [("b", tt); ("2", tt); ("a", tt); ("1", tt)]
  = ["1"; "2"; "b"; "a"].
Proof. reflexivity. Qed.

(** A variable that holds [undefined] in the environment is not warned
    about, and one that the schema declares is not either. *)
Example scenario_undefined_variable :
  validateEnv [("PORT", Some "3000"); ("GHOST", None)]
              [("PORT", descriptor "number")]
  = Normal {| valid := true; errors := []; warnings := [] |}.
Proof. reflexivity. Qed.

(** The schema key [toString] on the environment [{}]: [env[key]] is the
    inherited method, which a string descriptor without constraints
    accepts, and [parseEnv] stores it. *)
Example scenario_inherited_method :
  validateEnv [] [("toString", descriptor "string")]
  = Normal {| valid := true; errors := []; warnings := [] |}
  /\ parseEnv [] [("toString", descriptor "string")]
     = Normal {| own := [("toString",
                          Inherited {|
                            foreign_length := Some (number_of_Z 0);
                            foreign_text :=
                              "function toString() { [native code] }" |})];
                 proto := ObjectPrototype |}.
Proof. split; reflexivity. Qed.

(** An own property that holds [undefined] hides the inherited method:
    the key is then missing. *)
Example scenario_own_undefined :
  validateEnv [("toString", None)] [("toString", descriptor "string")]
  = Normal {| valid := false;
              errors := [ {| variable := "toString";
                             message :=
                               "Required environment variable is missing";
                             expected := Some "string value";
                             received := Some "undefined" |} ];
              warnings := [] |}.
Proof. reflexivity. Qed.

(** The inherited method against a number descriptor: its text is not a
    number. *)
Example scenario_inherited_number :
  validateEnv [] [("valueOf", descriptor "number")]
  = Normal {| valid := false;
              errors := [ {| variable := "valueOf";
                             message := "Invalid number format";
                             expected := Some "number";
                             received :=
                               Some "function valueOf() { [native code] }"
                          |} ];
              warnings := [] |}.
Proof. reflexivity. Qed.

(** The schema key [__proto__]: the assignment of its value, a string,
    creates no property. *)
Example scenario_proto_key :
  parseEnv [("__proto__", Some "x"); ("A", Some "y")]
           [("__proto__", descriptor "string"); ("A", descriptor "string")]
  = Normal {| own := [("A", Data (JStr "y"))]; proto := ObjectPrototype |}.
Proof. reflexivity. Qed.

(** With [throwOnError: false], the TypeError of an inherited key of type
    boolean is swallowed like any other failure. *)
Example scenario_createEnv_inherited :
  createEnv [] [("constructor", descriptor "boolean")]
    (mkOptions None (Some false) (Some true))
  = ([console_error "value.toLowerCase is not a function"],
     Normal empty_object).
Proof. reflexivity. Qed.

End Scenarios.

(** ** Instances of the theorems *)

Section Instances.

#[local] Existing Instance Example.example_host.

(** C1 at the number descriptor with default 3000 and the empty string. *)
Lemma parseValue_missing_resolution_witness :
  (Some EmptyString = None \/ Some EmptyString = Some EmptyString)
  /\ parseValue (Some EmptyString)
       (with_default (descriptor "number") (JNum (number_of_Z 3000))) "PORT"
     = Normal {| value := JNum (number_of_Z 3000); error := None |}.
Proof.
  split; [right; reflexivity |].
  apply (parseValue_missing_resolution
           (with_default (descriptor "number") (JNum (number_of_Z 3000)))
           "PORT" (Some EmptyString)).
  - right; reflexivity.
  - discriminate.
Defined.

(** C10 at a string descriptor with [minLength] 20 whose default is the
    number 7: of the wrong type and below the length, and returned. *)
Lemma parseValue_default_unchecked_witness :
  (@None string = None \/ @None string = Some EmptyString)
  /\ JNum (number_of_Z 7) <> JUndefined
  /\ parseValue None
       (with_default (with_minLength (descriptor "string") 20)
          (JNum (number_of_Z 7)))
       "API_KEY"
     = Normal {| value := JNum (number_of_Z 7); error := None |}.
Proof.
  split; [left; reflexivity |].
  split; [discriminate |].
  apply (parseValue_default_unchecked
           (with_default (with_minLength (descriptor "string") 20)
              (JNum (number_of_Z 7)))
           "API_KEY" None).
  - left; reflexivity.
  - discriminate.
Defined.

(** C7 at the raw string "  YES ". *)
Lemma parseValue_boolean_witness :
  type (descriptor "boolean") = "boolean"
  /\ "  YES " <> EmptyString
  /\ parseValue (Some "  YES ") (descriptor "boolean") "DEBUG"
     = Normal {| value := JBool true; error := None |}.
Proof.
  split; [reflexivity |].
  split; [discriminate |].
  apply (parseValue_boolean (descriptor "boolean") "DEBUG" "  YES ").
  - reflexivity.
  - discriminate.
  - simpl. right; right; left; reflexivity.
Defined.

(** C8 at an ftp URL against the allow-list http, https. *)
Lemma parseValue_url_witness :
  type (with_protocols (descriptor "url") ["http"; "https"]) = "url"
  /\ "ftp://example.com" <> EmptyString
  /\ new_URL "ftp://example.com" = Normal (mkURL "ftp:")
  /\ parseValue (Some "ftp://example.com")
       (with_protocols (descriptor "url") ["http"; "https"]) "TEST"
     = Normal {| value := JStr "ftp://example.com";
                 error := Some {|
                   variable := "TEST";
                   message := "Invalid URL protocol";
                   expected := Some "URL with protocol: http, https";
                   received := Some "ftp" |} |}.
Proof.
  split; [reflexivity |].
  split; [discriminate |].
  split; [reflexivity |].
  destruct (parseValue_url
              (with_protocols (descriptor "url") ["http"; "https"])
              "TEST" "ftp://example.com" (mkURL "ftp:")
              eq_refl ltac:(discriminate) eq_refl)
    as (_ & Hreject & _).
  apply (Hreject ["http"; "https"] eq_refl).
  simpl. intros [H | [H | []]]; discriminate.
Defined.

(** C5 at the bounds 1 and 65535: the raw string "65535" sits on the
    maximum and passes. *)
Lemma parseValue_number_checks_witness :
  type (with_range (descriptor "number") 1 65535) = "number"
  /\ "65535" <> EmptyString
  /\ isNaN (Number "65535") = false
  /\ parseValue (Some "65535") (with_range (descriptor "number") 1 65535)
       "PORT"
     = Normal {| value := JNum (number_of_Z 65535); error := None |}.
Proof.
  split; [reflexivity |].
  split; [discriminate |].
  split; [reflexivity |].
  destruct (parseValue_number_checks
              (with_range (descriptor "number") 1 65535)
              "PORT" "65535" eq_refl ltac:(discriminate) eq_refl)
    as (_ & _ & _ & Hpass & _).
  apply Hpass.
  - intros H; discriminate.
  - intros m [= <-]. reflexivity.
  - intros m [= <-]. reflexivity.
Defined.

#[local] Existing Instance Example.example_realm.

(** C3 at an environment with a variable that the schema does not
    declare. *)
Lemma validateEnv_valid_iff_no_errors_witness :
  exists r,
    validateEnv [("PORT", Some "3000"); ("EXTRA", Some "x")]
                [("PORT", descriptor "number")]
    = Normal r
    /\ (valid r = true <-> errors r = [])
    /\ In ("Environment variable " ++ dquote ++ "EXTRA" ++ dquote
             ++ " is not defined in schema") (warnings r).
Proof.
  assert (Hreturns : exists r,
             validateEnv [("PORT", Some "3000"); ("EXTRA", Some "x")]
                         [("PORT", descriptor "number")]
             = Normal r)
    by (eexists; reflexivity).
  destruct Hreturns as (r & Hr). exists r. split; [exact Hr |].
  destruct (validateEnv_valid_iff_no_errors
              [("PORT", Some "3000"); ("EXTRA", Some "x")]
              [("PORT", descriptor "number")] r Hr)
    as (Hvalid & Hwarn & _).
  split; [exact Hvalid |].
  apply (Hwarn "EXTRA" "x"); [reflexivity |].
  simpl. intuition discriminate.
Defined.



(** C6 at the schema of the test suite. *)
Lemma parseEnv_optional_key_undefined_witness :
  obj_wf [("REQUIRED", descriptor "string");
          ("OPTIONAL", with_required (descriptor "string") false)]
  /\ exists result,
       parseEnv [("REQUIRED", Some "value")]
                [("REQUIRED", descriptor "string");
                 ("OPTIONAL", with_required (descriptor "string") false)]
       = Normal result
       /\ own result = [("REQUIRED", Data (JStr "value"));
                        ("OPTIONAL", Data JUndefined)]
       /\ get_own (own result) "OPTIONAL" = Some (Data JUndefined)
       /\ In "OPTIONAL" (Object_keys (own result)).
Proof.
  assert (Hwf : obj_wf [("REQUIRED", descriptor "string");
                        ("OPTIONAL",
                         with_required (descriptor "string") false)]).
  { unfold obj_wf. simpl. repeat constructor; simpl; intuition discriminate. }
  split; [exact Hwf |].
  assert (Hreturns : exists result,
             parseEnv [("REQUIRED", Some "value")]
                      [("REQUIRED", descriptor "string");
                       ("OPTIONAL",
                        with_required (descriptor "string") false)]
             = Normal result)
    by (eexists; reflexivity).
  destruct Hreturns as (result & Hr). exists result. split; [exact Hr |].
  split; [vm_compute in Hr; injection Hr as <-; reflexivity |].
  destruct (parseEnv_optional_key_undefined
              [("REQUIRED", Some "value")]
              [("REQUIRED", descriptor "string");
               ("OPTIONAL", with_required (descriptor "string") false)]
              result "OPTIONAL" (with_required (descriptor "string") false)
              Hwf Hr)
    as (Hown & _).
  - right; left; reflexivity.
  - reflexivity.
  - reflexivity.
  - left; reflexivity.
  - apply Hown. discriminate.
Defined.

(** C6 as the specification words it fails there: the optional key is not
    absent from the mapping. *)
Lemma parseEnv_optional_key_absent_counterexample :
  exists result,
    parseEnv [("REQUIRED", Some "value")]
             [("REQUIRED", descriptor "string");
              ("OPTIONAL", with_required (descriptor "string") false)]
    = Normal result
    /\ required (with_required (descriptor "string") false) = Some false
    /\ default (with_required (descriptor "string") false) = JUndefined
    /\ get_own [("REQUIRED", Some "value")] "OPTIONAL" = None
    /\ env_read [("REQUIRED", Some "value")] "OPTIONAL" = RawUndefined
    /\ get_own (own result) "OPTIONAL" <> None
    /\ In "OPTIONAL" (Object_keys (own result)).
Proof.
  eexists. split; [reflexivity |].
  repeat split.
  - discriminate.
  - simpl. right; left; reflexivity.
Qed.

End Instances.

(** ** Instances of the further theorems *)

Section MoreInstances.

#[local] Existing Instance Example.example_host.

(** X2: an invalid PORT is reported with or without a default. *)
Lemma parseValue_supplied_ignores_default_witness :
  same_constraints (with_default (descriptor "number") number_3000)
    (descriptor "number")
  /\ "invalid" <> EmptyString
  /\ parseValue (Some "invalid")
       (with_default (descriptor "number") number_3000) "PORT"
     = parseValue (Some "invalid") (descriptor "number") "PORT".
Proof.
  assert (Hsame : same_constraints
                    (with_default (descriptor "number") number_3000)
                    (descriptor "number"))
    by (unfold same_constraints; repeat split).
  split; [exact Hsame |].
  split; [discriminate |].
  apply (parseValue_supplied_ignores_default _ _ "PORT" "invalid" Hsame).
  discriminate.
Defined.

(** X3: "8080" against the range 1 .. 65535. *)
Lemma parseValue_success_sound_witness :
  "8080" <> EmptyString
  /\ parseValue (Some "8080") (with_range (descriptor "number") 1 65535)
       "PORT"
     = Normal {| value := JNum (number_of_Z 8080); error := None |}
  /\ passes_min (with_range (descriptor "number") 1 65535) (Number "8080")
  /\ passes_max (with_range (descriptor "number") 1 65535) (Number "8080").
Proof.
  split; [discriminate |].
  split; [reflexivity |].
  destruct (parseValue_success_sound
              (with_range (descriptor "number") 1 65535) "PORT" "8080"
              {| value := JNum (number_of_Z 8080); error := None |}
              ltac:(discriminate) eq_refl eq_refl)
    as (_ & _ & Hnumber & _).
  destruct (Hnumber eq_refl) as (_ & _ & _ & Hmin & Hmax).
  split; assumption.
Defined.

(** X4: a string of three code units against [minLength] 3. *)
Lemma parseValue_string_accepts_iff_witness :
  type (with_minLength (descriptor "string") 3) = "string"
  /\ "abc" <> EmptyString
  /\ exists r,
       parseValue (Some "abc") (with_minLength (descriptor "string") 3) "NAME"
       = Normal r
       /\ value r = JStr "abc"
       /\ (error r = None <->
           passes_minLength (with_minLength (descriptor "string") 3) "abc"
           /\ passes_maxLength (with_minLength (descriptor "string") 3) "abc"
           /\ passes_pattern (with_minLength (descriptor "string") 3) "abc").
Proof.
  split; [reflexivity |].
  split; [discriminate |].
  apply (parseValue_string_accepts_iff
           (with_minLength (descriptor "string") 3) "NAME" "abc").
  - reflexivity.
  - discriminate.
Defined.

(** X5: "Production" is not "production". *)
Lemma parseValue_enum_accepts_iff_witness :
  type (with_values (descriptor "enum") ["development"; "production"])
  = "enum"
  /\ "Production" <> EmptyString
  /\ exists r,
       parseValue (Some "Production")
         (with_values (descriptor "enum") ["development"; "production"])
         "NODE_ENV"
       = Normal r
       /\ value r = JStr "Production"
       /\ error r <> None.
Proof.
  split; [reflexivity |].
  split; [discriminate |].
  destruct (parseValue_enum_accepts_iff
              (with_values (descriptor "enum") ["development"; "production"])
              "NODE_ENV" "Production" eq_refl ltac:(discriminate))
    as (r & Hr & Hv & Hiff & _).
  exists r. split; [exact Hr |]. split; [exact Hv |].
  intros Hnone. apply Hiff in Hnone. simpl in Hnone.
  destruct Hnone as [H | [H | []]]; discriminate.
Defined.

(** X6: "not-a-number" against bounds and the integer flag. *)
Lemma parseValue_number_invalid_format_witness :
  type (with_range (descriptor "number") 1 65535) = "number"
  /\ "not-a-number" <> EmptyString
  /\ isNaN (Number "not-a-number") = true
  /\ parseValue (Some "not-a-number")
       (with_range (descriptor "number") 1 65535) "PORT"
     = Normal {| value := JNum NaN;
                 error := Some {|
                   variable := "PORT";
                   message := "Invalid number format";
                   expected := Some "number";
                   received := Some "not-a-number" |} |}.
Proof.
  split; [reflexivity |].
  split; [discriminate |].
  split; [reflexivity |].
  apply (parseValue_number_invalid_format
           (with_range (descriptor "number") 1 65535) "PORT" "not-a-number").
  - reflexivity.
  - discriminate.
  - reflexivity.
Defined.

(** X7: "not-a-url" against an allow-list. *)
Lemma parseValue_url_invalid_format_witness :
  type (with_protocols (descriptor "url") ["https"]) = "url"
  /\ "not-a-url" <> EmptyString
  /\ new_URL "not-a-url" = Throw (mkJsError "TypeError" "Invalid URL")
  /\ parseValue (Some "not-a-url")
       (with_protocols (descriptor "url") ["https"]) "TEST"
     = Normal {| value := JStr "not-a-url";
                 error := Some {|
                   variable := "TEST";
                   message := "Invalid URL format";
                   expected := Some "valid URL";
                   received := Some "not-a-url" |} |}.
Proof.
  split; [reflexivity |].
  split; [discriminate |].
  split; [reflexivity |].
  apply (parseValue_url_invalid_format
           (with_protocols (descriptor "url") ["https"]) "TEST" "not-a-url"
           (mkJsError "TypeError" "Invalid URL")).
  - reflexivity.
  - discriminate.
  - reflexivity.
Defined.

(** X8: the JSON text of the empty array. *)
Lemma parseValue_json_witness :
  type (descriptor "json") = "json"
  /\ "[]" <> EmptyString
  /\ parseValue (Some "[]") (descriptor "json") "LIST"
     = Normal {| value := JArr []; error := None |}.
Proof.
  split; [reflexivity |].
  split; [discriminate |].
  destruct (parseValue_json (descriptor "json") "LIST" "[]"
              eq_refl ltac:(discriminate)) as (Hok & _).
  apply Hok. reflexivity.
Defined.

(** X9: a descriptor of type "date", with a default. *)
Lemma parseValue_unknown_type_witness :
  ~ In (type (with_default (descriptor "date") (JStr "today"))) known_types
  /\ "2024-01-01" <> EmptyString
  /\ parseValue (Some "2024-01-01")
       (with_default (descriptor "date") (JStr "today")) "SINCE"
     = Normal {| value := JUndefined;
                 error := Some {|
                   variable := "SINCE";
                   message := "Unknown type: date";
                   expected := None;
                   received := Some "2024-01-01" |} |}.
Proof.
  assert (Hunknown :
            ~ In (type (with_default (descriptor "date") (JStr "today")))
                 known_types)
    by (simpl; intuition discriminate).
  split; [exact Hunknown |].
  split; [discriminate |].
  apply (parseValue_unknown_type
           (with_default (descriptor "date") (JStr "today")) "SINCE"
           "2024-01-01" Hunknown).
  discriminate.
Defined.

#[local] Existing Instance Example.example_realm.

(** X10: the message for a missing DATABASE_URL. *)
Lemma parseEnv_message_lists_failures_witness :
  exists v e err,
    validateEnv [] [("DATABASE_URL", with_required (descriptor "url") true)]
    = Normal v
    /\ In e (errors v)
    /\ parseEnv [] [("DATABASE_URL", with_required (descriptor "url") true)]
       = Throw err
    /\ contains (error_message err)
         ("DATABASE_URL" ++ ": " ++ "Required environment variable is missing")
    /\ contains (error_message err) "Received: undefined".
Proof.
  pose (e := {| variable := "DATABASE_URL";
                message := "Required environment variable is missing";
                expected := Some "url value";
                received := Some "undefined" |}).
  pose (v := {| valid := false; errors := [e]; warnings := [] |}).
  assert (Hv : validateEnv [] [("DATABASE_URL",
                                 with_required (descriptor "url") true)]
               = Normal v)
    by reflexivity.
  destruct (parseEnv_message_lists_failures
              [] [("DATABASE_URL", with_required (descriptor "url") true)]
              v e Hv (or_introl eq_refl))
    as (err & Hthrow & _ & Hname & _ & Hreceived).
  exists v, e, err.
  split; [exact Hv |].
  split; [left; reflexivity |].
  split; [exact Hthrow |].
  split; [exact Hname |].
  apply (Hreceived "undefined"). reflexivity.
Defined.

(** X11: an environment with a variable the schema does not declare. *)
Lemma parseEnv_result_keys_witness :
  obj_wf [("PORT", descriptor "number"); ("DEBUG", descriptor "boolean")]
  /\ exists result,
       parseEnv [("EXTRA", Some "x"); ("DEBUG", Some "true");
                 ("PORT", Some "3000")]
                [("PORT", descriptor "number");
                 ("DEBUG", descriptor "boolean")]
       = Normal result
       /\ own result = [("PORT", Data (JNum (number_of_Z 3000)));
                        ("DEBUG", Data (JBool true))]
       /\ map fst (own result) = ["PORT"; "DEBUG"]
       /\ get_own (own result) "EXTRA" = None.
Proof.
  assert (Hwf : obj_wf [("PORT", descriptor "number");
                        ("DEBUG", descriptor "boolean")]).
  { unfold obj_wf. simpl. repeat constructor; simpl; intuition discriminate. }
  split; [exact Hwf |].
  assert (Hreturns : exists result,
             parseEnv [("EXTRA", Some "x"); ("DEBUG", Some "true");
                       ("PORT", Some "3000")]
                      [("PORT", descriptor "number");
                       ("DEBUG", descriptor "boolean")]
             = Normal result)
    by (eexists; reflexivity).
  destruct Hreturns as (result & Hr). exists result. split; [exact Hr |].
  split; [vm_compute in Hr; injection Hr as <-; reflexivity |].
  destruct (parseEnv_result_keys
              [("EXTRA", Some "x"); ("DEBUG", Some "true");
               ("PORT", Some "3000")]
              [("PORT", descriptor "number"); ("DEBUG", descriptor "boolean")]
              result Hwf Hr)
    as (Hkeys & _ & Hother & _).
  split; [exact Hkeys |].
  apply Hother. simpl. intuition discriminate.
Defined.

(** X13: two undeclared variables, one of them empty, and one that holds
    [undefined]. *)
Lemma validateEnv_warnings_in_order_witness :
  exists v,
    validateEnv [("B", Some "x"); ("PORT", Some "3000"); ("GHOST", None);
                 ("A", Some EmptyString)]
                [("PORT", descriptor "number")]
    = Normal v
    /\ warnings v
       = [ "Environment variable " ++ dquote ++ "B" ++ dquote
             ++ " is not defined in schema";
           "Environment variable " ++ dquote ++ "A" ++ dquote
             ++ " is not defined in schema" ].
Proof.
  assert (Hreturns : exists v,
             validateEnv [("B", Some "x"); ("PORT", Some "3000");
                          ("GHOST", None); ("A", Some EmptyString)]
                         [("PORT", descriptor "number")]
             = Normal v)
    by (eexists; reflexivity).
  destruct Hreturns as (v & Hv). exists v. split; [exact Hv |].
  apply (validateEnv_warnings_in_order
           [("B", Some "x"); ("PORT", Some "3000"); ("GHOST", None);
            ("A", Some EmptyString)]
           [("PORT", descriptor "number")] v Hv).
Defined.

(** X15: a missing PORT with [throwOnError: false] and [process.env]
    unused. *)
Lemma createEnv_no_throw_witness :
  throwOnError (mkOptions (Some []) (Some false) None) = Some false
  /\ createEnv [("PORT", Some "8080")]
       [("PORT", with_required (descriptor "number") true);
        ("DEBUG", with_default (descriptor "boolean") (JBool false))]
       (mkOptions (Some []) (Some false) None)
     = ([], Normal empty_object)
  /\ returns (snd (createEnv [("PORT", Some "8080")]
                     [("PORT", with_required (descriptor "number") true);
                      ("DEBUG",
                       with_default (descriptor "boolean") (JBool false))]
                     (mkOptions (Some []) (Some false) None))).
Proof.
  split; [reflexivity |].
  split; [reflexivity |].
  apply (createEnv_no_throw [("PORT", Some "8080")]
           [("PORT", with_required (descriptor "number") true);
            ("DEBUG", with_default (descriptor "boolean") (JBool false))]
           (mkOptions (Some []) (Some false) None)).
  reflexivity.
Defined.

(** X16: the same schema with the options left out, read from
    [process.env]. *)
Lemma createEnv_rethrows_witness :
  throwOnError (mkOptions None None None) <> Some false
  /\ snd (createEnv [("PORT", Some "8080")]
            [("PORT", with_required (descriptor "number") true);
             ("DEBUG", with_default (descriptor "boolean") (JBool false))]
            (mkOptions None None None))
     = Normal {| own := [("PORT", Data (JNum (number_of_Z 8080)));
                         ("DEBUG", Data (JBool false))];
                 proto := ObjectPrototype |}
  /\ fst (createEnv [("PORT", Some "8080")]
            [("PORT", with_required (descriptor "number") true);
             ("DEBUG", with_default (descriptor "boolean") (JBool false))]
            (mkOptions None None None))
     = [].
Proof.
  split; [discriminate |].
  split; [reflexivity |].
  destruct (createEnv_rethrows [("PORT", Some "8080")]
              [("PORT", with_required (descriptor "number") true);
               ("DEBUG", with_default (descriptor "boolean") (JBool false))]
              (mkOptions None None None) ltac:(discriminate))
    as (_ & _ & _ & _ & Hquiet).
  apply (Hquiet {| own := [("PORT", Data (JNum (number_of_Z 8080)));
                           ("DEBUG", Data (JBool false))];
                   proto := ObjectPrototype |}).
  reflexivity.
Defined.

(** X17: the schema of the test "should apply defaults", with PORT set to
    the empty string. *)
Lemma parseEnv_all_defaults_witness :
  obj_wf [("PORT", with_default (descriptor "number") number_3000);
          ("DEBUG", with_default (descriptor "boolean") (JBool false))]
  /\ exists result,
       parseEnv [("PORT", Some EmptyString)]
                [("PORT", with_default (descriptor "number") number_3000);
                 ("DEBUG", with_default (descriptor "boolean") (JBool false))]
       = Normal result
       /\ get_own (own result) "PORT" = Some (Data number_3000).
Proof.
  assert (Hwf : obj_wf
                  [("PORT", with_default (descriptor "number") number_3000);
                   ("DEBUG",
                    with_default (descriptor "boolean") (JBool false))]).
  { unfold obj_wf. simpl. repeat constructor; simpl; intuition discriminate. }
  split; [exact Hwf |].
  destruct (parseEnv_all_defaults
              [("PORT", Some EmptyString)]
              [("PORT", with_default (descriptor "number") number_3000);
               ("DEBUG", with_default (descriptor "boolean") (JBool false))]
              Hwf)
    as (result & Hr & Hdefaults).
  - intros key config [[= <- <-] | [[= <- <-] | []]].
    + split; [discriminate | right; reflexivity].
    + split; [discriminate | left; reflexivity].
  - exists result. split; [exact Hr |].
    apply (Hdefaults "PORT" (with_default (descriptor "number") number_3000)).
    + now left.
    + discriminate.
Defined.

(** X18: DATABASE_URL missing beside a valid PORT. *)
Lemma missing_required_key_fails_witness :
  In ("DATABASE_URL", descriptor "url")
     [("PORT", descriptor "number"); ("DATABASE_URL", descriptor "url")]
  /\ default (descriptor "url") = JUndefined
  /\ required (descriptor "url") <> Some false
  /\ (env_read [("PORT", Some "3000")] "DATABASE_URL" = RawUndefined
      \/ env_read [("PORT", Some "3000")] "DATABASE_URL"
         = RawString EmptyString)
  /\ throws (parseEnv [("PORT", Some "3000")]
               [("PORT", descriptor "number");
                ("DATABASE_URL", descriptor "url")]).
Proof.
  split; [right; left; reflexivity |].
  split; [reflexivity |].
  split; [discriminate |].
  split; [left; reflexivity |].
  apply (missing_required_key_fails [("PORT", Some "3000")]
           [("PORT", descriptor "number"); ("DATABASE_URL", descriptor "url")]
           "DATABASE_URL" (descriptor "url")).
  - right; left; reflexivity.
  - reflexivity.
  - discriminate.
  - left; reflexivity.
Defined.

(** X19: an environment that defines both schema keys itself. *)
Lemma declared_reads_never_throw_witness :
  reads_declared [("PORT", Some "3000"); ("toString", Some "x")]
    [("PORT", descriptor "number"); ("toString", descriptor "boolean")]
  /\ returns (validateEnv [("PORT", Some "3000"); ("toString", Some "x")]
                [("PORT", descriptor "number");
                 ("toString", descriptor "boolean")])
  /\ throws (parseEnv [("PORT", Some "3000"); ("toString", Some "x")]
               [("PORT", descriptor "number");
                ("toString", descriptor "boolean")]).
Proof.
  assert (Hdeclared :
            reads_declared [("PORT", Some "3000"); ("toString", Some "x")]
              [("PORT", descriptor "number");
               ("toString", descriptor "boolean")]).
  { intros key f [<- | [<- | []]]; discriminate. }
  split; [exact Hdeclared |].
  destruct (declared_reads_never_throw
              [("PORT", Some "3000"); ("toString", Some "x")]
              [("PORT", descriptor "number");
               ("toString", descriptor "boolean")] Hdeclared)
    as (Hreturns & Hiff & _).
  split; [exact Hreturns |].
  apply Hiff.
  exists "toString", (descriptor "boolean"). do 2 eexists.
  split; [right; left; reflexivity |].
  split; reflexivity.
Defined.

End MoreInstances.
